(** * A-share-replay: the bulk download engine

    A shallow embedding of [downloader.py] (paginated tick download with
    server failover, batch rounds, retries and the report) and of
    [download_pre_close.py] (point lookup of the previous close, with retry
    rounds), and the properties of the specification that concern them.

    The remote servers, the thread pool's completion order and the output
    directory are the environment: they are explicit arguments of the
    functions below. *)

From Stdlib Require Import QArith Qcanon.
From stdpp Require Import gmap strings list fin_maps pretty.

(** ** Strings *)

(** [needle in haystack] of Python, on byte strings. *)
Fixpoint str_in (needle haystack : string) : bool :=
  String.prefix needle haystack ||
  match haystack with
  | EmptyString => false
  | String _ rest => str_in needle rest
  end.

(** [s.startswith(p)]. *)
Definition startswith (s p : string) : bool := String.prefix p s.

(** [str(x)] of an optional text: [None] prints as the word None. *)
Definition str_option (x : option string) : string :=
  match x with
  | Some s => s
  | None => "None"
  end.

(** ** Lists *)

(** [P] holds of every two successive elements of [l]. *)
Definition adjacent {A} (P : A → A → Prop) (l : list A) : Prop :=
  ∀ i x y, l !! i = Some x → l !! S i = Some y → P x y.

(** ** Binary64 arithmetic of [n * 0.9]

    [0.9] is the double [8106479329266893 / 2^53]. For an integer
    [0 <= n < 2^53] the product [n * 0.9] is the exact product rounded to
    53 significant bits, ties to even; [rne53 m] is that rounding on the
    numerator [m] of [m / 2^53]. Python compares an int with a float
    exactly. *)
Definition double_0_9 : Z := 8106479329266893.

Definition rne53 (m : Z) : Z :=
  let s := (Z.log2 m - 52)%Z in
  if (s <=? 0)%Z then m
  else
    let q := (m / 2 ^ s)%Z in
    let r := (m mod 2 ^ s)%Z in
    let half := (2 ^ (s - 1))%Z in
    let q' :=
      if (r <? half)%Z then q
      else if (half <? r)%Z then (q + 1)%Z
      else if Z.even q then q else (q + 1)%Z in
    (q' * 2 ^ s)%Z.

(** [k > n * 0.9] for lengths [k] and [n]. *)
Definition gt_times_0_9 (k n : nat) : bool :=
  (rne53 (Z.of_nat n * double_0_9) <? Z.of_nat k * 2 ^ 53)%Z.

Module downloader.

(** ** Data model of [downloader.py] *)

(** A row of [stocks_df] after [load_stock_list]. *)
Record stock_row := {
  stock_code : string;
  stock_name : string;
  exchange : string;
  tdx_market : Z;
}.

(** An entry of [TDX_SERVERS]: (ip, port). *)
Definition server : Type := string * Z.

Definition TDX_SERVERS : list server :=
  [("121.37.207.165", 7709%Z); ("202.108.253.131", 7709%Z);
   ("218.108.47.69", 7709%Z)].

(** One transaction record of a page. *)
Record tick := {
  tick_time : string;
  tick_price : Qc;
  tick_vol : Z;
  tick_num : Z;
  tick_buyorsell : Z;
}.

(** What [api.connect] does: a truthy value, [False], or an exception. *)
Inductive connect_reply :=
| Connected
| Refused
| ConnectRaises (e : string).

(** What [api.get_history_transaction_data] does: a page (possibly of
    length zero), [None], or an exception. *)
Inductive page_reply :=
| Page (data : list tick)
| NoneReply
| GetRaises (e : string).

(** The behaviour of the environment during one pass of the server loop
    of [fetch_single_stock]: the answer to [connect], the answers to the
    successive page requests, whether [api.disconnect()] of line 142
    raises, and whether building and saving the frame (lines 150-166)
    raises (before any file is created). A request beyond the scripted
    answers raises [script_exhausted], so one connection serves finitely
    many requests. *)
Record session := {
  connect : connect_reply;
  replies : list page_reply;
  disconnect_error : option string;
  save_error : option string;
}.

Definition script_exhausted : string := "StopIteration".

(** A network call issued by [fetch_single_stock]. *)
Inductive event :=
| Connect (s : server)
| Request (s : server) (market : Z) (code : string) (start count : nat) (date : Z)
| Disconnect (s : server).

(** The parquet file of one stock: the accumulated records and the four
    columns added to every row. The casts of [price] and [vol] to 32 bits
    are not modelled. *)
Record parquet := {
  rows : list tick;
  col_stock_code : string;
  col_stock_name : string;
  col_exchange : string;
  col_date : Z;
}.

(** The files of [save_dir], by file name. *)
Abbreviation directory := (gmap string parquet).

Definition file_path (code : string) : string := code +:+ ".parquet".

Definition batch_size : nat := 2000.

(** The messages of the returned triples. *)
Definition msg_exists : string := "文件已存在，跳过".
Definition msg_downloaded (n : nat) : string :=
  "成功下载 " +:+ pretty n +:+ " 条数据".
Definition msg_no_data (market : Z) : string :=
  "当日无数据 (Exchange:" +:+ pretty market +:+ ")".
Definition msg_all_failed (last_error : option string) : string :=
  "尝试均失败. 错误: " +:+ str_option last_error.
Definition err_no_connection (s : server) : string :=
  "无法连接服务器 " +:+ s.1.
Definition err_none : string := "获取数据返回None(可能是网络中断)".
Definition no_data_marker : string := "当日无数据".

(** ** [fetch_single_stock] *)

(** How the [while True] loop of lines 121-140 is left: with [data] being
    [None], with [data] a page, or by an exception. *)
Inductive loop_exit :=
| DataIsNone
| DataIsPage
| Raised (e : string).

(** The pagination loop: the offsets requested, [all_data] and the exit. *)
Fixpoint fetch_pages (script : list page_reply) (start : nat)
    (all_data : list tick) : list nat * list tick * loop_exit :=
  match script with
  | [] => ([start], all_data, Raised script_exhausted)
  | GetRaises e :: _ => ([start], all_data, Raised e)
  | NoneReply :: _ => ([start], all_data, DataIsNone)
  | Page data :: rest =>
      if length data =? 0 then ([start], all_data, DataIsPage)
      else
        let all_data := all_data ++ data in
        if length data <? batch_size then ([start], all_data, DataIsPage)
        else
          let '(starts, all_data, ex) :=
            fetch_pages rest (start + batch_size) all_data in
          (start :: starts, all_data, ex)
  end.

(** The offsets of [n] successive requests from [start]. *)
Definition offsets (start n : nat) : list nat :=
  (λ i, start + i * batch_size) <$> seq 0 n.

(** The value returned by [fetch_single_stock], the directory afterwards
    and the network calls made, in order. *)
Record fetch_out := {
  result : string * bool * string;
  files : directory;
  calls : list event;
}.

Definition after (evs : list event) (out : fetch_out) : fetch_out :=
  {| result := result out; files := files out; calls := evs ++ calls out |}.

Section fetch.
Variable net : server → session.
Variable fs : directory.
Variable row : stock_row.
Variable date_int : Z.

Definition request (s : server) (start : nat) : event :=
    Request s (tdx_market row) (stock_code row) start batch_size date_int.

  (** The loop over [self.TDX_SERVERS[:retry_count]], lines 108-180. *)
Fixpoint try_servers (servers : list server) (last_error : option string)
      : fetch_out :=
    match servers with
    | [] =>
        {| result := (stock_code row, false, msg_all_failed last_error);
           files := fs; calls := [] |}
    | s :: servers =>
        match connect (net s) with
        | ConnectRaises e =>
            after [Connect s; Disconnect s] (try_servers servers (Some e))
        | Refused =>
            after [Connect s]
              (try_servers servers (Some (err_no_connection s)))
        | Connected =>
            let '(starts, all_data, ex) := fetch_pages (replies (net s)) 0 [] in
            let requests := Connect s :: (request s <$> starts) in
            match ex, disconnect_error (net s) with
            | Raised e, _ =>
                after (requests ++ [Disconnect s])
                  (try_servers servers (Some e))
            | _, Some e =>
                after (requests ++ [Disconnect s; Disconnect s])
                  (try_servers servers (Some e))
            | DataIsNone, None =>
                after (requests ++ [Disconnect s])
                  (try_servers servers (Some err_none))
            | DataIsPage, None =>
                match all_data with
                | [] =>
                    {| result :=
                         (stock_code row, false, msg_no_data (tdx_market row));
                       files := fs;
                       calls := requests ++ [Disconnect s] |}
                | _ :: _ =>
                    match save_error (net s) with
                    | Some e =>
                        after (requests ++ [Disconnect s; Disconnect s])
                          (try_servers servers (Some e))
                    | None =>
                        let df :=
                          {| rows := all_data;
                             col_stock_code := stock_code row;
                             col_stock_name := stock_name row;
                             col_exchange := exchange row;
                             col_date := date_int |} in
                        {| result :=
                             (stock_code row, true,
                              msg_downloaded (length all_data));
                           files := <[file_path (stock_code row) := df]> fs;
                           calls := requests ++ [Disconnect s] |}
                    end
                end
            end
        end
    end.
End fetch.

Definition fetch_single_stock (TDX_SERVERS : list server)
    (net : server → session) (fs : directory) (row : stock_row)
    (date_int : Z) (retry_count : nat) : fetch_out :=
  match fs !! file_path (stock_code row) with
  | Some _ =>
      {| result := (stock_code row, true, msg_exists);
         files := fs; calls := [] |}
  | None => try_servers net fs row date_int (take retry_count TDX_SERVERS) None
  end.

(** The outcome of the specification's data model, read off a returned
    triple: the success flag and, for a failure, the return statement that
    built the message (line 170 or line 180), which the head of the message
    tells. *)
Inductive outcome :=
| Success
| NoData
| Failed.

Definition outcome_of (r : string * bool * string) : outcome :=
  let '(_, success, message) := r in
  if success : bool then Success
  else if startswith message no_data_marker then NoData
  else Failed.

(** The three ways out of the server loop: every server tried and none
    returned, an empty result from server [s], or the records of server
    [s] saved. *)
Inductive try_servers_end (net : server → session) (fs : directory)
    (row : stock_row) (date_int : Z) (servers : list server)
    (out : fetch_out) : Prop :=
| EndAllFailed last_error :
    result out = (stock_code row, false, msg_all_failed last_error) →
    files out = fs →
    try_servers_end net fs row date_int servers out
| EndNoData s starts :
    s ∈ servers →
    fetch_pages (replies (net s)) 0 [] = (starts, [], DataIsPage) →
    result out = (stock_code row, false, msg_no_data (tdx_market row)) →
    files out = fs →
    try_servers_end net fs row date_int servers out
| EndSaved s starts all_data :
    s ∈ servers →
    fetch_pages (replies (net s)) 0 [] = (starts, all_data, DataIsPage) →
    all_data ≠ [] →
    result out =
      (stock_code row, true, msg_downloaded (length all_data)) →
    files out =
      <[file_path (stock_code row) :=
          {| rows := all_data;
             col_stock_code := stock_code row;
             col_stock_name := stock_name row;
             col_exchange := exchange row;
             col_date := date_int |}]> fs →
    try_servers_end net fs row date_int servers out.

(** ** [test_connectivity] *)

(** [probe s] tells whether server [s] connects and answers
    [get_security_count(0)] with something other than [None]. *)
Definition test_connectivity (probe : server → bool)
    (TDX_SERVERS : list server) : list server :=
  List.filter probe TDX_SERVERS.

(** [self.TDX_SERVERS] after lines 198-203 of [download_all_stocks]: the
    servers that answered the probe, or the list as it was when none did. *)
Definition servers_in_use (probe : server → bool)
    (TDX_SERVERS : list server) : list server :=
  match test_connectivity probe TDX_SERVERS with
  | [] => TDX_SERVERS
  | valid_servers => valid_servers
  end.

(** ** [_download_batch] *)

Record batch_out := {
  success_count : nat;
  failed_list : list (string * string);
  batch_files : directory;
  batch_calls : list event;
}.

(** The completion handler of lines 276-293, over the tasks in the order
    in which they complete. Each task runs [fetch_single_stock] with the
    default [retry_count] of 3. The tasks of one batch touch different
    files when the codes are pairwise distinct, so running them one after
    the other in completion order is then the only behaviour; the progress
    callback cannot change the result and is left out. *)
Fixpoint complete (TDX_SERVERS : list server)
    (net : stock_row → server → session) (date_int : Z)
    (tasks : list stock_row) (acc : batch_out) : batch_out :=
  match tasks with
  | [] => acc
  | row :: tasks =>
      let out :=
        fetch_single_stock TDX_SERVERS (net row) (batch_files acc) row
          date_int 3 in
      let '(code, success, message) := result out in
      complete TDX_SERVERS net date_int tasks
        (if success : bool then
           {| success_count := S (success_count acc);
              failed_list := failed_list acc;
              batch_files := files out;
              batch_calls := batch_calls acc ++ calls out |}
         else
           {| success_count := success_count acc;
              failed_list := failed_list acc ++ [(code, message)];
              batch_files := files out;
              batch_calls := batch_calls acc ++ calls out |})
  end.

(** One step of the completion handler, with the code taken from the row
    (it is the first component of the returned triple). *)
Definition handle (TDX_SERVERS : list server)
    (net : stock_row → server → session) (date_int : Z)
    (row : stock_row) (acc : batch_out) : batch_out :=
  let out :=
    fetch_single_stock TDX_SERVERS (net row) (batch_files acc) row
      date_int 3 in
  {| success_count :=
       if (result out).1.2 then S (success_count acc) else success_count acc;
     failed_list :=
       if (result out).1.2 then failed_list acc
       else failed_list acc ++ [(stock_code row, (result out).2)];
     batch_files := files out;
     batch_calls := batch_calls acc ++ calls out |}.

(** [as_completed] is the order in which the futures of the submitted
    rows complete. [max_workers] bounds the threads of the pool. *)
Definition _download_batch (TDX_SERVERS : list server)
    (net : stock_row → server → session)
    (as_completed : list stock_row → list stock_row)
    (fs : directory) (stocks_df : list stock_row) (date_int : Z)
    (max_workers : Z) : batch_out :=
  complete TDX_SERVERS net date_int (as_completed stocks_df)
    {| success_count := 0; failed_list := [];
       batch_files := fs; batch_calls := [] |}.

(** ** [download_all_stocks] *)

(** What the run meets: the probe answers, and for every round (0 is the
    first download, [r] the [r]-th retry) the sessions of every row and
    the completion order of the pool. *)
Record world := {
  probe : server → bool;
  net : nat → stock_row → server → session;
  as_completed : nat → list stock_row → list stock_row;
}.

(** The arguments of [_generate_report]. *)
Record report := {
  total : nat;
  report_success : nat;
  report_failed : list (string * string);
}.

(** One call of [_download_batch]: its number, the [max_workers] and the
    frame passed, and the failure list returned. *)
Record round := {
  round_number : nat;
  round_workers : Z;
  round_input : list stock_row;
  round_failed : list (string * string);
}.

Record run_out := {
  run_report : report;
  run_files : directory;
  run_rounds : list round;
  run_calls : list event;
}.

(** The state of the retry loop of lines 237-251. *)
Record retry_state := {
  rs_success : nat;
  rs_failed : list (string * string);
  rs_files : directory;
  rs_rounds : list round;
  rs_calls : list event;
}.

(** [len(failed_list) > len(stocks_df) * 0.9 and "当日无数据" in
    failed_list[0][1]]; [and] does not evaluate its second operand when
    the first is false, which it is for an empty list. *)
Definition skip_retry (failed_list : list (string * string))
    (stocks_df : list stock_row) : bool :=
  gt_times_0_9 (length failed_list) (length stocks_df) &&
  match failed_list with
  | (_, reason) :: _ => str_in no_data_marker reason
  | [] => false
  end.

Section run.
Variable w : world.
Variable TDX_SERVERS : list server.
Variable stocks_df : list stock_row.
Variable date_int : Z.
Variable max_workers : Z.

  (** [stocks_df[stocks_df['stock_code'].isin(failed_codes)]]. *)
Definition retry_df (failed_list : list (string * string))
      : list stock_row :=
    filter (λ row, stock_code row ∈ failed_list.*1) stocks_df.

  (** [while failed_list and retry_round <= max_retry], with
      [remaining = max_retry + 1 - retry_round]. *)
Fixpoint retry_loop (remaining retry_round : nat) (st : retry_state)
      : retry_state :=
    match remaining, rs_failed st with
    | S remaining, _ :: _ =>
        let df := retry_df (rs_failed st) in
        let b :=
          _download_batch TDX_SERVERS (net w retry_round)
            (as_completed w retry_round) (rs_files st) df date_int
            max_workers in
        retry_loop remaining (S retry_round)
          {| rs_success := rs_success st + success_count b;
             rs_failed := failed_list b;
             rs_files := batch_files b;
             rs_rounds := rs_rounds st ++
               [{| round_number := retry_round;
                   round_workers := max_workers;
                   round_input := df;
                   round_failed := failed_list b |}];
             rs_calls := rs_calls st ++ batch_calls b |}
    | _, _ => st
    end.
End run.

(** Round [y] follows round [x]: it has the same number of workers and
    is given the rows of the universe whose code failed in [x]. *)
Definition follows (stocks_df : list stock_row) (x y : round) : Prop :=
  round_workers y = round_workers x ∧
  round_input y = retry_df stocks_df (round_failed x).

Definition _generate_report (stocks_df : list stock_row)
    (success_count : nat) (failed_list : list (string * string)) : report :=
  {| total := length stocks_df;
     report_success := success_count;
     report_failed := failed_list |}.

(** [TDX_SERVERS] is [self.TDX_SERVERS] on entry, [fs] the output
    directory on entry. *)
Definition download_all_stocks (w : world) (TDX_SERVERS : list server)
    (stocks_df : list stock_row) (fs : directory) (date_int : Z)
    (max_workers : Z) (max_retry : nat) : run_out :=
  let TDX_SERVERS := servers_in_use (probe w) TDX_SERVERS in
  let b :=
    _download_batch TDX_SERVERS (net w 0) (as_completed w 0) fs stocks_df
      date_int max_workers in
  let st0 :=
    {| rs_success := success_count b;
       rs_failed := failed_list b;
       rs_files := batch_files b;
       rs_rounds :=
         [{| round_number := 0; round_workers := max_workers;
             round_input := stocks_df; round_failed := failed_list b |}];
       rs_calls := batch_calls b |} in
  let st :=
    if skip_retry (failed_list b) stocks_df then st0
    else retry_loop w TDX_SERVERS stocks_df date_int max_workers
           max_retry 1 st0 in
  {| run_report := _generate_report stocks_df (rs_success st) (rs_failed st);
     run_files := rs_files st;
     run_rounds := rs_rounds st;
     run_calls := rs_calls st |}.

(** ** Readings of the call trace and of a session *)

(** The server a network call goes to. *)
Definition event_server (ev : event) : server :=
  match ev with
  | Connect s | Request s _ _ _ _ _ | Disconnect s => s
  end.

(** The servers connected to, in order. *)
Definition connected (calls : list event) : list server :=
  omap (λ ev, match ev with Connect s => Some s | _ => None end) calls.

(** How one pass of the server loop over server [s] ends: [Some e] when
    it ends with [continue] after setting [last_error] to [e], [None]
    when it ends with one of the two [return]s of lines 168 and 170. *)
Definition pass_error (s : server) (ses : session) : option string :=
  match connect ses with
  | ConnectRaises e => Some e
  | Refused => Some (err_no_connection s)
  | Connected =>
      let '(_, all_data, ex) := fetch_pages (replies ses) 0 [] in
      match ex, disconnect_error ses with
      | Raised e, _ => Some e
      | _, Some e => Some e
      | DataIsNone, None => Some err_none
      | DataIsPage, None =>
          match all_data with
          | [] => None
          | _ :: _ => save_error ses
          end
      end
  end.

(** ** [download_date_range] *)

(** A day is the ordinal of a [datetime] at midnight ([toordinal()]);
    [current += timedelta(days=1)] adds one. [weekday()] is 0 on Monday,
    and ordinal 1 is a Monday. *)
Definition weekday (day : Z) : Z := ((day + 6) mod 7)%Z.

(** What a run over a range of days meets: the world and the content of
    the output directory [data/tick_<date_int>] of each day, and
    [int(current.strftime('%Y%m%d'))]. *)
Record range_world := {
  day_world : Z → world;
  day_files : Z → directory;
  date_int_of : Z → Z;
}.

(** The [while current <= end] loop of lines 332-342 with [n] days left:
    the calls of [download_all_stocks] made, with their day, and
    [self.TDX_SERVERS] at the end. *)
Fixpoint date_loop (rw : range_world) (stocks_df : list stock_row)
    (max_workers : Z) (max_retry : nat) (n : nat) (current : Z)
    (servers : list server) : list (Z * run_out) * list server :=
  match n with
  | 0 => ([], servers)
  | S n =>
      if (weekday current <? 5)%Z then
        let out :=
          download_all_stocks (day_world rw current) servers stocks_df
            (day_files rw current) (date_int_of rw current) max_workers
            max_retry in
        let '(runs, final) :=
          date_loop rw stocks_df max_workers max_retry n (current + 1)%Z
            (servers_in_use (probe (day_world rw current)) servers) in
        ((current, out) :: runs, final)
      else
        date_loop rw stocks_df max_workers max_retry n (current + 1)%Z
          servers
  end.

(** [start] and [end_] are the days that [datetime.strptime] made of
    [start_date] and [end_date]; [TDX_SERVERS] is [self.TDX_SERVERS] on
    entry. *)
Definition download_date_range (rw : range_world)
    (TDX_SERVERS : list server) (stocks_df : list stock_row)
    (start end_ : Z) (max_workers : Z) (max_retry : nat)
    : list (Z * run_out) * list server :=
  date_loop rw stocks_df max_workers max_retry
    (Z.to_nat (end_ - start + 1)) start TDX_SERVERS.

(** ** The files a run leaves *)

(** [df] under the name [f] is a file as lines 150-166 write it for a row
    of [stocks_df] on [date_int]: named after the code, tagged with the
    code, the name, the exchange and the date, with at least one record. *)
Definition written_for (stocks_df : list stock_row) (date_int : Z)
    (f : string) (df : parquet) : Prop :=
  ∃ row,
    row ∈ stocks_df ∧
    f = file_path (stock_code row) ∧
    col_stock_code df = stock_code row ∧
    col_stock_name df = stock_name row ∧
    col_exchange df = exchange row ∧
    col_date df = date_int ∧
    rows df ≠ [].

(** [fs'] is [fs] with files written for rows of [stocks_df] added:
    nothing removed, nothing replaced. *)
Definition extends (stocks_df : list stock_row) (date_int : Z)
    (fs fs' : directory) : Prop :=
  fs ⊆ fs' ∧
  ∀ f df, fs' !! f = Some df →
    fs !! f = Some df ∨ (fs !! f = None ∧ written_for stocks_df date_int f df).

End downloader.

Module download_pre_close.

(** ** Data model of [download_pre_close.py] *)

(** A decoded JSON value; an object keeps its members in document order. *)
#[warnings="-register-all"]
Inductive json :=
| JNull
| JBool (b : bool)
| JNumber (q : Qc)
| JString (s : string)
| JArray (items : list json)
| JObject (members : list (string * json)).

(** Truth value of a decoded JSON value in a Python condition. *)
Definition truthy (v : json) : bool :=
  match v with
  | JNull => false
  | JBool b => b
  | JNumber q => negb (bool_decide (q = 0%Qc))
  | JString s => negb (bool_decide (s = ""))
  | JArray items => match items with [] => false | _ :: _ => true end
  | JObject members => match members with [] => false | _ :: _ => true end
  end.

(** [v == '-']. *)
Definition is_placeholder (v : json) : bool :=
  match v with
  | JString s => bool_decide (s = "-")
  | _ => false
  end.

(** Member [key] of a decoded object: the last one in the document. *)
Fixpoint member (key : string) (members : list (string * json))
    : option json :=
  match members with
  | [] => None
  | (k, v) :: rest =>
      match member key rest with
      | Some v' => Some v'
      | None => if decide (k = key) then Some v else None
      end
  end.

(** [v.get(key)]: [None] of Python is [JNull]; on a value that is not a
    dict the call raises [AttributeError], here [None]. *)
Definition get (v : json) (key : string) : option json :=
  match v with
  | JObject members => Some (default JNull (member key members))
  | _ => None
  end.

(** What [requests.get] does: a response with a status code and a body
    that [response.json()] decodes ([None] when decoding raises), or an
    exception. *)
Inductive http_reply :=
| Response (status_code : Z) (body : option json)
| RequestRaises.

(** A call of [requests.get]: the URL and the two query parameters. *)
Record request := {
  url : string;
  secid : string;
  fields : string;
}.

(** The returned dict. *)
Record quote := {
  stock_code : string;
  pre_close : json;
}.

Definition base_url : string := "http://push2.eastmoney.com/api/qt/stock/get".

(** ** [get_stock_pre_close_single] *)

(** The market prefix of lines 24-31. *)
Definition market_prefix (stock_code : string) : string :=
  if startswith stock_code "6" then "1"
  else if startswith stock_code "0" || startswith stock_code "3" then "0"
  else if startswith stock_code "8" || startswith stock_code "4" then "0"
  else "0".

Definition make_secid (stock_code : string) : string :=
  market_prefix stock_code +:+ "." +:+ stock_code.

(** Lines 46-66, on the answer to the request. *)
Definition parse_reply (stock_code : string) (reply : http_reply)
    : option quote :=
  match reply with
  | RequestRaises => None
  | Response status_code body =>
      if bool_decide (status_code ≠ 200%Z) then None
      else
        match body with
        | None => None
        | Some data =>
            match get data "data" with
            | None => None
            | Some d =>
                if truthy d then
                  match get d "f60" with
                  | None => None
                  | Some pre_close =>
                      if truthy pre_close then
                        if is_placeholder pre_close then None
                        else Some {| stock_code := stock_code;
                                     pre_close := pre_close |}
                      else None
                  end
                else None
            end
        end
  end.

(** The returned value and the requests made. *)
Definition get_stock_pre_close_single (http : request → http_reply)
    (stock_code : string) : option quote * list request :=
  let req :=
    {| url := base_url; secid := make_secid stock_code; fields := "f60" |} in
  (parse_reply stock_code (http req), [req]).

(** ** [_download_batch_internal] *)

Record batch_out := {
  results : list quote;
  failed_codes : list string;
  batch_requests : list request;
}.

(** The completion handler of lines 82-92, over the codes in the order in
    which their futures complete. *)
Fixpoint complete (http : request → http_reply) (codes : list string)
    (acc : batch_out) : batch_out :=
  match codes with
  | [] => acc
  | code :: codes =>
      let '(result, reqs) := get_stock_pre_close_single http code in
      complete http codes
        match result with
        | Some result =>
            {| results := results acc ++ [result];
               failed_codes := failed_codes acc;
               batch_requests := batch_requests acc ++ reqs |}
        | None =>
            {| results := results acc;
               failed_codes := failed_codes acc ++ [code];
               batch_requests := batch_requests acc ++ reqs |}
        end
  end.

Definition _download_batch_internal (http : request → http_reply)
    (as_completed : list string → list string)
    (stock_codes : list string) (max_workers : Z) : batch_out :=
  complete http (as_completed stock_codes)
    {| results := []; failed_codes := []; batch_requests := [] |}.

(** ** [download_pre_close_parallel] *)

(** For every round (0 is the first download, [i + 1] the retry of loop
    index [i]): the answers of the endpoint and the completion order. *)
Record world := {
  http : nat → request → http_reply;
  as_completed : nat → list string → list string;
}.

(** One call of [_download_batch_internal]: its number, the
    [max_workers] and the codes passed, and the failed codes returned. *)
Record round := {
  round_number : nat;
  round_workers : Z;
  round_input : list string;
  round_failed : list string;
}.

Record run_state := {
  all_results : list quote;
  failed : list string;
  rounds : list round;
  requests : list request;
}.

(** [max(5, int(max_workers * 0.5))]: the product with 0.5 is exact and
    [int] truncates towards zero. *)
Definition retry_workers (max_workers : Z) : Z :=
  Z.max 5 (Z.quot max_workers 2).

(** [for i in range(max_retries)] of lines 118-129, from index [i], with
    [n] indices left. *)
Fixpoint retry_loop (w : world) (max_workers : Z) (n i : nat)
    (st : run_state) : run_state :=
  match n, failed st with
  | S n, _ :: _ =>
      let b :=
        _download_batch_internal (http w (S i)) (as_completed w (S i))
          (failed st) (retry_workers max_workers) in
      retry_loop w max_workers n (S i)
        {| all_results := all_results st ++ results b;
           failed := failed_codes b;
           rounds := rounds st ++
             [{| round_number := S i;
                 round_workers := retry_workers max_workers;
                 round_input := failed st;
                 round_failed := failed_codes b |}];
           requests := requests st ++ batch_requests b |}
  | _, _ => st
  end.

Definition download_pre_close_parallel (w : world)
    (stock_codes : list string) (max_workers : Z) (max_retries : nat)
    : run_state :=
  let b :=
    _download_batch_internal (http w 0) (as_completed w 0) stock_codes
      max_workers in
  retry_loop w max_workers max_retries 0
    {| all_results := results b;
       failed := failed_codes b;
       rounds :=
         [{| round_number := 0; round_workers := max_workers;
             round_input := stock_codes; round_failed := failed_codes b |}];
       requests := batch_requests b |}.

(** Round [y] follows round [x]: it is given the codes that failed in
    [x], and runs with [retry_workers]. *)
Definition follows (max_workers : Z) (x y : round) : Prop :=
  round_input y = round_failed x ∧
  round_workers y = retry_workers max_workers.

(** The request [get_stock_pre_close_single] sends for a code. *)
Definition request_for (stock_code : string) : request :=
  {| url := base_url; secid := make_secid stock_code; fields := "f60" |}.

(** A quote as line 57 returns it: a truthy [f60] other than ["-"]. *)
Definition valid_quote (q : quote) : Prop :=
  truthy (pre_close q) = true ∧ is_placeholder (pre_close q) = false.

End download_pre_close.

(** * Scenarios

    Concrete universes and environments, those of the scenarios of the
    specification among them. *)

Module scenarios.
Import downloader.

Definition a_tick : tick :=
  {| tick_time := "09:25"; tick_price := Q2Qc (1025 # 100); tick_vol := 100;
     tick_num := 1; tick_buyorsell := 0 |}.

Definition date : Z := 20251216.

Definition stock (code : string) : stock_row :=
  {| stock_code := code; stock_name := code; exchange := "深圳";
     tdx_market := 0 |}.

(** A server that connects and gives the scripted answers. *)
Definition answers (script : list page_reply) : session :=
  {| connect := Connected; replies := script;
     disconnect_error := None; save_error := None |}.

(** A server that refuses the connection. *)
Definition unreachable : session :=
  {| connect := Refused; replies := [];
     disconnect_error := None; save_error := None |}.

Definition full_page : list tick := replicate batch_size a_tick.

(** Tasks complete in the order of submission. *)
Definition in_order {A} (r : nat) (l : list A) : list A := l.

(** Two full pages and a page of one record. *)
Definition three_pages (s : server) : session :=
  answers [Page full_page; Page full_page; Page [a_tick]].

(** A full page, then the sentinel. *)
Definition page_then_none (s : server) : session :=
  answers [Page full_page; NoneReply].

(** A directory in which the file of 600000 exists. *)
Definition resumed : directory :=
  {[ "600000.parquet" :=
       {| rows := [a_tick]; col_stock_code := "600000";
          col_stock_name := "600000"; col_exchange := "上海";
          col_date := date |} ]}.

(** Scenario A: X has pages of 2000, 2000 and 1 records; Y gets the
    sentinel from the first server and an empty page from the second; Z
    gets an empty page at once. *)
Definition X : stock_row := stock "600000".
Definition Y : stock_row := stock "000001".
Definition Z' : stock_row := stock "300001".

Definition net_A (row : stock_row) (s : server) : session :=
  if decide (stock_code row = "600000") then three_pages s
  else if decide (stock_code row = "000001") then
    if decide (s = ("121.37.207.165", 7709%Z)) then answers [NoneReply]
    else answers [Page []]
  else answers [Page []].

Definition world_A : world :=
  {| probe := λ _, true; net := λ _, net_A; as_completed := in_order |}.

(** Scenario C: ten targets, nine of which get an empty page in every
    round while the first one downloads a record. *)
Definition universe_C : list stock_row :=
  stock <$> ["000001"; "000002"; "000004"; "000006"; "000007";
             "000008"; "000009"; "000010"; "000011"; "000012"].

Definition net_C (row : stock_row) (s : server) : session :=
  if decide (stock_code row = "000001") then answers [Page [a_tick]]
  else answers [Page []].

Definition world_C : world :=
  {| probe := λ _, true; net := λ _, net_C; as_completed := in_order |}.

(** All ten targets get an empty page. *)
Definition world_no_data : world :=
  {| probe := λ _, true; net := λ _ _ _, answers [Page []];
     as_completed := in_order |}.

(** Scenario D: one target that gets the sentinel from every server in
    rounds 0, 1 and 2 and a page of one record from round 3 on. *)
Definition T : stock_row := stock "600519".

Definition world_D : world :=
  {| probe := λ _, true;
     net := λ r _ _,
       if decide (r < 3) then answers [NoneReply]
       else answers [Page [a_tick]];
     as_completed := in_order |}.

(** The same target with the record available from round 4 on only. *)
Definition world_D4 : world :=
  {| probe := λ _, true;
     net := λ r _ _,
       if decide (r < 4) then answers [NoneReply]
       else answers [Page [a_tick]];
     as_completed := in_order |}.

(** The endpoint of the previous close never answers. *)
Definition world_offline : download_pre_close.world :=
  {| download_pre_close.http := λ _ _, download_pre_close.RequestRaises;
     download_pre_close.as_completed := in_order |}.

(** The endpoint answers every request with the given [f60]. *)
Definition quoting (f60 : download_pre_close.json)
    (req : download_pre_close.request) : download_pre_close.http_reply :=
  download_pre_close.Response 200
    (Some (download_pre_close.JObject
       [("rc", download_pre_close.JNumber 0%Qc);
        ("data", download_pre_close.JObject [("f60", f60)])])).

(** Scenario B: the first two servers answer with the sentinel, the
    third with a page of one record. *)
Definition net_B (s : server) : session :=
  if decide (s = ("218.108.47.69", 7709%Z)) then answers [Page [a_tick]]
  else answers [NoneReply].

(** No server accepts the connection. *)
Definition net_down (s : server) : session := unreachable.

(** Every server answers every row with a page of one record. *)
Definition world_ok : world :=
  {| probe := λ _, true; net := λ _ _ _, answers [Page [a_tick]];
     as_completed := in_order |}.

(** Only the second server answers the probe. *)
Definition world_second : world :=
  {| probe := λ s, bool_decide (s = ("202.108.253.131", 7709%Z));
     net := λ _ _ _, answers [Page [a_tick]];
     as_completed := in_order |}.

(** A range of days with the same world and an empty directory each day;
    the date is left as the ordinal. *)
Definition calm_days : range_world :=
  {| day_world := λ _, world_second; day_files := λ _, ∅;
     date_int_of := λ day, day |}.

(** The endpoint quotes 1234 for every code from round 1 on and does
    not answer in round 0. *)
Definition world_late : download_pre_close.world :=
  {| download_pre_close.http := λ r,
       if decide (r = 0) then λ _, download_pre_close.RequestRaises
       else quoting (download_pre_close.JNumber (Q2Qc 1234));
     download_pre_close.as_completed := in_order |}.

End scenarios.

(** * Properties *)

(** ** The comparison with [n * 0.9] *)

Section times_0_9.
Local Open Scope Z_scope.

Lemma rne53_exact m : Z.log2 m ≤ 52 → rne53 m = m.
Proof.
  intros Hs. unfold rne53.
  destruct (Z.leb_spec (Z.log2 m - 52) 0); [done|lia].
Qed.

(** [rne53 m] is not below [m] rounded down and at most half a unit in
    the last place above [m]. *)
Lemma rne53_bounds m :
  52 < Z.log2 m →
  let s := Z.log2 m - 52 in
  (m / 2 ^ s) * 2 ^ s ≤ rne53 m ∧ 2 * rne53 m ≤ 2 * m + 2 ^ s.
Proof.
  intros Hs s. unfold rne53. fold s.
  destruct (Z.leb_spec s 0); [lia|].
  assert (Hpow : 2 ^ s = 2 * 2 ^ (s - 1)).
  { rewrite <- Z.pow_succ_r by lia. f_equal. lia. }
  assert (0 < 2 ^ (s - 1)) by (apply Z.pow_pos_nonneg; lia).
  pose proof (Z.div_mod m (2 ^ s) ltac:(lia)) as Hdm.
  pose proof (Z.mod_pos_bound m (2 ^ s) ltac:(lia)) as Hr.
  set (q := m / 2 ^ s) in *. set (r := m mod 2 ^ s) in *.
  set (h := 2 ^ (s - 1)) in *. set (p := 2 ^ s) in *.
  destruct (Z.ltb_spec r h); [nia|].
  destruct (Z.ltb_spec h r); [nia|].
  destruct (Z.even q); nia.
Qed.

Lemma double_0_9_tenfold : 10 * double_0_9 = 9 * 2 ^ 53 + 2.
Proof. reflexivity. Qed.

(** For a universe below [2^49] rows the comparison with [n * 0.9] is the
    exact one. *)
Lemma gt_times_0_9_spec (k n : nat) :
  Z.of_nat n < 2 ^ 49 →
  gt_times_0_9 k n = true ↔ (9 * n < 10 * k)%nat.
Proof.
  intros Hn. unfold gt_times_0_9. rewrite Z.ltb_lt.
  pose proof double_0_9_tenfold as Hc.
  set (c := double_0_9) in *. set (m := Z.of_nat n * c).
  assert (H53 : 2 ^ 53 = 9007199254740992) by reflexivity.
  assert (H49 : 2 ^ 49 = 562949953421312) by reflexivity.
  destruct (decide (n = 0%nat)) as [->|Hn0].
  { subst m. rewrite rne53_exact by (simpl; lia). simpl. lia. }
  assert (Hm : 2 ^ 52 ≤ m) by (change (2 ^ 52) with 4503599627370496; nia).
  assert (Hlog : 52 ≤ Z.log2 m) by (apply Z.log2_le_pow2; lia).
  destruct (decide (Z.log2 m = 52)) as [H52|H52].
  { rewrite rne53_exact by lia. subst m. nia. }
  pose proof (rne53_bounds m ltac:(lia)) as [Hlo Hhi]. cbv zeta in *.
  set (s := Z.log2 m - 52) in *.
  pose proof (Z.log2_spec m ltac:(lia)) as [Hl1 Hl2].
  assert (Hs1 : 2 ^ Z.log2 m = 2 ^ 52 * 2 ^ s).
  { rewrite <- Z.pow_add_r by lia. f_equal. lia. }
  assert (Hmlt : m < 2 ^ 102).
  { change (2 ^ 102) with (2 ^ 49 * 2 ^ 53). subst m. nia. }
  assert (Hs53 : s ≤ 53).
  { assert (Z.log2 m < 102); [|lia]. apply Z.log2_lt_pow2; lia. }
  assert (Hps : 0 < 2 ^ s) by (apply Z.pow_pos_nonneg; lia).
  assert (Hsplit : 2 ^ 53 = 2 ^ (53 - s) * 2 ^ s).
  { rewrite <- Z.pow_add_r by lia. f_equal. lia. }
  assert (Hpd : 0 < 2 ^ (53 - s)) by (apply Z.pow_pos_nonneg; lia).
  change (2 ^ 52) with 4503599627370496 in *.
  split.
  - intros Hlt. apply Nat2Z.inj_lt. rewrite !Nat2Z.inj_mul.
    destruct (Z.lt_ge_cases (9 * Z.of_nat n) (10 * Z.of_nat k))
      as [|Hge]; [done|].
    exfalso.
    assert (Hkm : Z.of_nat k * 2 ^ 53 ≤ m) by (subst m; nia).
    assert (Z.of_nat k * 2 ^ (53 - s) ≤ m / 2 ^ s).
    { apply Z.div_le_lower_bound; [lia|]. rewrite Hsplit in Hkm. lia. }
    rewrite Hsplit in Hlt. nia.
  - intros Hlt. apply Nat2Z.inj_lt in Hlt. rewrite !Nat2Z.inj_mul in Hlt.
    change (Z.of_nat 9) with 9 in Hlt. change (Z.of_nat 10) with 10 in Hlt.
    assert (2 ^ s < 2 * Z.of_nat n) by (subst m; nia).
    subst m. nia.
Qed.

End times_0_9.

(** ** Strings *)

Lemma prefix_str_in p s : String.prefix p s = true → str_in p s = true.
Proof. intros H. destruct s; simpl in *; rewrite H; done. Qed.

Lemma length_append (s1 s2 : string) :
  String.length (s1 +:+ s2) = String.length s1 + String.length s2.
Proof. induction s1 as [|a s1 IH]; simpl; [done|]. by f_equal. Qed.

(** Two names with the same extension are the same name. *)
Lemma append_inj_l (s1 s2 ext : string) :
  s1 +:+ ext = s2 +:+ ext → s1 = s2.
Proof.
  revert s2. induction s1 as [|a s1 IH]; intros [|b s2] H.
  - done.
  - apply (f_equal String.length) in H.
    rewrite !length_append in H. simpl in H. lia.
  - apply (f_equal String.length) in H.
    rewrite !length_append in H. simpl in H. lia.
  - cbn [String.append] in H. injection H as -> H. f_equal. by apply IH.
Qed.

(** ** Successive elements *)

Lemma adjacent_singleton {A} (P : A → A → Prop) x : adjacent P [x].
Proof. intros i y z _ Hz. by destruct i. Qed.

Lemma adjacent_snoc {A} (P : A → A → Prop) l y :
  adjacent P l →
  (∀ x, last l = Some x → P x y) →
  adjacent P (l ++ [y]).
Proof.
  intros Hl Hlast i x z Hx Hz.
  destruct (decide (S i < length l)) as [Hlt|Hge].
  - rewrite lookup_app_l in Hx by lia. rewrite lookup_app_l in Hz by done.
    by eapply Hl.
  - assert (Hi : S i = length l).
    { apply lookup_lt_Some in Hz. rewrite length_app in Hz. simpl in Hz.
      lia. }
    rewrite lookup_app_l in Hx by lia.
    rewrite Hi, list_lookup_middle in Hz by done.
    injection Hz as <-. apply Hlast. rewrite last_lookup.
    by replace (pred (length l)) with i by lia.
Qed.

(** ** [fetch_single_stock] *)

Module downloader_facts.
Import downloader.

Lemma batch_size_pos : 0 < batch_size.
Proof. unfold batch_size. lia. Qed.

Local Opaque batch_size.

Lemma offsets_S start n :
  offsets start (S n) = start :: offsets (start + batch_size) n.
Proof.
  unfold offsets. cbn [seq fmap list_fmap]. f_equal; [lia|].
  rewrite <- seq_shift, <- list_fmap_compose.
  apply list_fmap_ext. intros _ i _. simpl. lia.
Qed.

(** Pages of at least [batch_size] records keep the loop going. *)
Lemma fetch_pages_full fulls tail start all_data :
  Forall (λ p, batch_size ≤ length p) fulls →
  fetch_pages ((Page <$> fulls) ++ tail) start all_data =
  let '(starts, all_data', ex) :=
    fetch_pages tail (start + length fulls * batch_size)
      (all_data ++ concat fulls) in
  (offsets start (length fulls) ++ starts, all_data', ex).
Proof.
  intros Hfull. revert start all_data.
  induction Hfull as [|p fulls Hp _ IH]; intros start all_data.
  - cbn. rewrite Nat.add_0_r, app_nil_r.
    by destruct (fetch_pages tail start all_data) as [[??]?].
  - cbn [fmap list_fmap app fetch_pages length concat].
    pose proof batch_size_pos.
    destruct (Nat.eqb_spec (length p) 0); [lia|].
    destruct (Nat.ltb_spec (length p) batch_size); [lia|].
    rewrite IH, offsets_S, <- app_assoc.
    replace (start + batch_size + length fulls * batch_size)
      with (start + S (length fulls) * batch_size) by lia.
    by destruct (fetch_pages tail _ _) as [[??]?].
Qed.

(** A page shorter than [batch_size] ends the loop. *)
Lemma fetch_pages_last last tail start all_data :
  length last < batch_size →
  fetch_pages (Page last :: tail) start all_data =
  ([start], all_data ++ last, DataIsPage).
Proof.
  intros Hlt. cbn [fetch_pages].
  destruct (Nat.eqb_spec (length last) 0) as [H0|].
  - apply nil_length_inv in H0 as ->. by rewrite app_nil_r.
  - by destruct (Nat.ltb_spec (length last) batch_size); [|lia].
Qed.

Lemma fetch_pages_script fulls last tail :
  Forall (λ p, length p = batch_size) fulls →
  length last < batch_size →
  fetch_pages ((Page <$> fulls ++ [last]) ++ tail) 0 [] =
  (offsets 0 (length (fulls ++ [last])), concat (fulls ++ [last]),
   DataIsPage).
Proof.
  intros Hfull Hlast.
  rewrite fmap_app, <- app_assoc, fetch_pages_full.
  2:{ eapply Forall_impl; [exact Hfull|]. simpl. lia. }
  cbn [fmap list_fmap app]. rewrite fetch_pages_last by done.
  cbn [app]. rewrite concat_app. cbn [concat]. rewrite app_nil_r.
  rewrite length_app. cbn [length]. rewrite Nat.add_1_r.
  unfold offsets. rewrite seq_S, fmap_app. done.
Qed.

(** The sentinel after full pages ends the loop with [data] being [None]. *)
Lemma fetch_pages_sentinel fulls tail :
  Forall (λ p, batch_size ≤ length p) fulls →
  fetch_pages ((Page <$> fulls) ++ NoneReply :: tail) 0 [] =
  (offsets 0 (S (length fulls)), concat fulls, DataIsNone).
Proof.
  intros Hfull. rewrite fetch_pages_full by done. cbn [fetch_pages app].
  unfold offsets. rewrite seq_S, fmap_app. done.
Qed.

Lemma length_concat_sum (pages : list (list tick)) :
  length (concat pages) = sum_list (length <$> pages).
Proof.
  induction pages as [|p pages IH]; [done|].
  cbn [concat fmap list_fmap sum_list sum_list_with].
  by rewrite length_app, IH.
Qed.

Lemma outcome_of_success code message :
  outcome_of (code, true, message) = Success.
Proof. done. Qed.

Lemma outcome_of_no_data code market :
  outcome_of (code, false, msg_no_data market) = NoData.
Proof. done. Qed.

Lemma outcome_of_all_failed code last_error :
  outcome_of (code, false, msg_all_failed last_error) = Failed.
Proof. done. Qed.

Section fetch_facts.
Variable net : server → session.
Variable row : stock_row.
Variable date_int : Z.

Lemma after_result evs out : result (after evs out) = result out.
Proof. done. Qed.

Lemma after_files evs out : files (after evs out) = files out.
Proof. done. Qed.

Lemma try_servers_end_after fs servers s evs out :
  try_servers_end net fs row date_int servers out →
  try_servers_end net fs row date_int (s :: servers) (after evs out).
Proof.
  intros [e Hr Hf|s' starts Hs Hp Hr Hf|s' starts all_data Hs Hp Hne Hr Hf].
  - by eapply EndAllFailed.
  - eapply EndNoData; [by right|done..].
  - eapply EndSaved; [by right|done..].
Qed.

Lemma try_servers_ends fs servers last_error :
  try_servers_end net fs row date_int servers
    (try_servers net fs row date_int servers last_error).
Proof.
  revert last_error.
  induction servers as [|s servers IH]; intros last_error.
  { by eapply EndAllFailed. }
  cbn [try_servers].
  destruct (connect (net s)); try by apply try_servers_end_after.
  destruct (fetch_pages (replies (net s)) 0 []) as [[starts all_data] ex] eqn:Hp.
  destruct ex, (disconnect_error (net s));
    try by apply try_servers_end_after.
  destruct all_data as [|t all_data].
  { eapply EndNoData; [by left|done..]. }
  destruct (save_error (net s)); [by apply try_servers_end_after|].
  eapply EndSaved; [by left|done..].
Qed.

Lemma after_agree evs out1 out2 :
  result out1 = result out2 ∧ calls out1 = calls out2 →
  result (after evs out1) = result (after evs out2) ∧
  calls (after evs out1) = calls (after evs out2).
Proof. intros [Hr Hc]. unfold after. cbn. by rewrite Hr, Hc. Qed.

(** The returned triple and the calls do not depend on the directory. *)
Lemma try_servers_directory fs1 fs2 servers last_error :
  result (try_servers net fs1 row date_int servers last_error) =
  result (try_servers net fs2 row date_int servers last_error) ∧
  calls (try_servers net fs1 row date_int servers last_error) =
  calls (try_servers net fs2 row date_int servers last_error).
Proof.
  revert last_error.
  induction servers as [|s servers IH]; intros last_error; [done|].
  cbn [try_servers].
  destruct (connect (net s)); try apply after_agree, IH.
  destruct (fetch_pages (replies (net s)) 0 []) as [[starts all_data] ex].
  destruct ex, (disconnect_error (net s)); try apply after_agree, IH.
  destruct all_data as [|t all_data]; [done|].
  destruct (save_error (net s)); [|done].
  apply after_agree, IH.
Qed.

End fetch_facts.

Section fetch_single_stock_facts.
Variable TDX_SERVERS : list server.
Variable net : server → session.
Variable fs : directory.
Variable row : stock_row.
Variable date_int : Z.
Variable retry_count : nat.

Lemma fetch_absent :
  fs !! file_path (stock_code row) = None →
  fetch_single_stock TDX_SERVERS net fs row date_int retry_count =
  try_servers net fs row date_int (take retry_count TDX_SERVERS) None.
Proof. intros H. unfold fetch_single_stock. by rewrite H. Qed.

(** The first component of the returned triple is the code of the row. *)
Lemma fetch_code :
  (result (fetch_single_stock TDX_SERVERS net fs row date_int
     retry_count)).1.1 = stock_code row.
Proof.
  unfold fetch_single_stock.
  destruct (fs !! file_path (stock_code row)); [done|].
  by destruct (try_servers_ends net row date_int fs
    (take retry_count TDX_SERVERS) None) as [? ->|?? _ _ ->|??? _ _ _ ->].
Qed.

(** A failure leaves the directory as it was. *)
Lemma fetch_failure_files :
  (result (fetch_single_stock TDX_SERVERS net fs row date_int
     retry_count)).1.2 = false →
  files (fetch_single_stock TDX_SERVERS net fs row date_int retry_count)
  = fs.
Proof.
  unfold fetch_single_stock.
  destruct (fs !! file_path (stock_code row)); [done|].
  by destruct (try_servers_ends net row date_int fs
    (take retry_count TDX_SERVERS) None)
    as [? Hr ?|?? _ _ Hr ?|??? _ _ _ Hr ?]; rewrite Hr.
Qed.

(** Only the file of the row can change. *)
Lemma fetch_files_other f :
  f ≠ file_path (stock_code row) →
  files (fetch_single_stock TDX_SERVERS net fs row date_int retry_count)
    !! f = fs !! f.
Proof.
  intros Hf. unfold fetch_single_stock.
  destruct (fs !! file_path (stock_code row)); [done|].
  destruct (try_servers_ends net row date_int fs
    (take retry_count TDX_SERVERS) None)
    as [? _ ->|?? _ _ _ ->|??? _ _ _ _ ->]; [done..|].
  by rewrite lookup_insert_ne.
Qed.

End fetch_single_stock_facts.

(** The returned triple depends on the directory only through the file of
    the row. *)
Lemma fetch_result_local TDX_SERVERS net fs1 fs2 row date_int retry_count :
  fs1 !! file_path (stock_code row) = fs2 !! file_path (stock_code row) →
  result (fetch_single_stock TDX_SERVERS net fs1 row date_int retry_count) =
  result (fetch_single_stock TDX_SERVERS net fs2 row date_int retry_count).
Proof.
  intros H. unfold fetch_single_stock. rewrite H.
  destruct (fs2 !! file_path (stock_code row)); [done|].
  apply try_servers_directory.
Qed.

(** C5: when the file of the target is already in the output directory,
    [fetch_single_stock] returns a success at once, makes no network call
    (no connect, no request) and leaves the directory, the file included,
    as it was. *)
Theorem resume_guard TDX_SERVERS net (fs : directory) row date_int
    retry_count :
  is_Some (fs !! file_path (stock_code row)) →
  let out :=
    fetch_single_stock TDX_SERVERS net fs row date_int retry_count in
  result out = (stock_code row, true, msg_exists) ∧
  outcome_of (result out) = Success ∧
  calls out = [] ∧
  files out = fs.
Proof.
  intros [df Hdf]. unfold fetch_single_stock. by rewrite Hdf.
Qed.

(** C1: with the file absent and the first server tried connected, a
    script of pages in which every page but the last has exactly
    [batch_size] records and the last has fewer (possibly none) is
    requested page by page at offsets 0, B, 2B, ...; the accumulated
    records are the pages in request order, their number the sum of the
    page lengths; the outcome is Success (and the records are saved) when
    the sum is not zero and the empty result NoData when it is. *)
Theorem paginated_fetch_accumulates TDX_SERVERS net (fs : directory) row
    date_int retry_count s others fulls last tail :
  fs !! file_path (stock_code row) = None →
  take retry_count TDX_SERVERS = s :: others →
  connect (net s) = Connected →
  disconnect_error (net s) = None →
  save_error (net s) = None →
  replies (net s) = (Page <$> fulls ++ [last]) ++ tail →
  Forall (λ p, length p = batch_size) fulls →
  length last < batch_size →
  let pages := fulls ++ [last] in
  let total := sum_list (length <$> pages) in
  let out :=
    fetch_single_stock TDX_SERVERS net fs row date_int retry_count in
  calls out =
    Connect s :: (request row date_int s <$> offsets 0 (length pages)) ++
    [Disconnect s] ∧
  length (concat pages) = total ∧
  if decide (total = 0) then
    result out = (stock_code row, false, msg_no_data (tdx_market row)) ∧
    outcome_of (result out) = NoData ∧
    files out = fs
  else
    result out = (stock_code row, true, msg_downloaded total) ∧
    outcome_of (result out) = Success ∧
    files out =
      <[file_path (stock_code row) :=
          {| rows := concat pages;
             col_stock_code := stock_code row;
             col_stock_name := stock_name row;
             col_exchange := exchange row;
             col_date := date_int |}]> fs.
Proof.
  intros Hfs Htake Hconn Hdis Hsave Hscript Hfull Hlast pages total out.
  assert (Hlen : length (concat pages) = total).
  { apply length_concat_sum. }
  unfold out. rewrite fetch_absent, Htake by done.
  cbn [try_servers]. rewrite Hconn, Hscript, fetch_pages_script by done.
  rewrite Hdis. fold pages.
  destruct (concat pages) as [|t all_data] eqn:Hall.
  - simpl in Hlen. rewrite decide_True by done. done.
  - rewrite Hsave. rewrite decide_False by (simpl in Hlen; lia).
    rewrite Hlen. done.
Qed.

Lemma try_servers_sentinel net fs row date_int servers last_error :
  (∀ s, s ∈ servers →
     connect (net s) = Connected ∧
     ∃ fulls tail,
       replies (net s) = (Page <$> fulls) ++ NoneReply :: tail ∧
       Forall (λ p, batch_size ≤ length p) fulls) →
  ∃ e,
    result (try_servers net fs row date_int servers last_error) =
      (stock_code row, false, msg_all_failed e) ∧
    files (try_servers net fs row date_int servers last_error) = fs.
Proof.
  revert last_error.
  induction servers as [|s servers IH]; intros last_error Hall.
  { by exists last_error. }
  destruct (Hall s) as [Hconn (fulls & tail & Hscript & Hfull)]; [by left|].
  cbn [try_servers].
  rewrite Hconn, Hscript, fetch_pages_sentinel by done.
  destruct (disconnect_error (net s)) as [e|].
  - destruct (IH (Some e)) as (e' & Hr & Hf).
    { intros s' Hs'. apply Hall. by right. }
    exists e'. by rewrite after_result, after_files.
  - destruct (IH (Some err_none)) as (e' & Hr & Hf).
    { intros s' Hs'. apply Hall. by right. }
    exists e'. by rewrite after_result, after_files.
Qed.

(** C2: with the file absent, when every server tried connects and
    answers some request with [None] (after any number of full pages), the
    returned triple is the failure of line 180: the outcome is Failed,
    neither Success nor NoData, whatever was accumulated before the
    sentinel, and nothing is saved. *)
Theorem sentinel_is_failure TDX_SERVERS net (fs : directory) row date_int
    retry_count :
  fs !! file_path (stock_code row) = None →
  (∀ s, s ∈ take retry_count TDX_SERVERS →
     connect (net s) = Connected ∧
     ∃ fulls tail,
       replies (net s) = (Page <$> fulls) ++ NoneReply :: tail ∧
       Forall (λ p, batch_size ≤ length p) fulls) →
  let out :=
    fetch_single_stock TDX_SERVERS net fs row date_int retry_count in
  (∃ e, result out = (stock_code row, false, msg_all_failed e)) ∧
  outcome_of (result out) = Failed ∧
  outcome_of (result out) ≠ Success ∧
  outcome_of (result out) ≠ NoData ∧
  files out = fs.
Proof.
  intros Hfs Hall out. unfold out. rewrite fetch_absent by done.
  destruct (try_servers_sentinel net fs row date_int
    (take retry_count TDX_SERVERS) None Hall) as (e & Hr & Hf).
  rewrite Hr, Hf. rewrite outcome_of_all_failed. eauto 10.
Qed.

(** C10: [fetch_single_stock] changes the output directory only by
    saving the file of its row, and only on the path that returns a
    success with downloaded records: when the file already exists, and on
    every return with the success flag off (the empty result NoData and
    the failure after all servers), the directory is as before; when the
    file is absent and the outcome is a success, the file written holds
    the records of one pass of the loop over one server, at least one
    record, and what earlier servers had accumulated is not in it. *)
Theorem artifact_only_on_download TDX_SERVERS net (fs : directory) row
    date_int retry_count :
  let out :=
    fetch_single_stock TDX_SERVERS net fs row date_int retry_count in
  let file := file_path (stock_code row) in
  match fs !! file with
  | Some _ => files out = fs
  | None =>
      match outcome_of (result out) with
      | Success =>
          ∃ s starts all_data,
            s ∈ take retry_count TDX_SERVERS ∧
            fetch_pages (replies (net s)) 0 [] =
              (starts, all_data, DataIsPage) ∧
            all_data ≠ [] ∧
            result out =
              (stock_code row, true, msg_downloaded (length all_data)) ∧
            files out =
              <[file :=
                  {| rows := all_data;
                     col_stock_code := stock_code row;
                     col_stock_name := stock_name row;
                     col_exchange := exchange row;
                     col_date := date_int |}]> fs ∧
            files out ≠ fs
      | NoData | Failed => files out = fs
      end
  end.
Proof.
  intros out file. unfold out, fetch_single_stock. fold file.
  destruct (fs !! file) eqn:Hfs; [done|].
  destruct (try_servers_ends net row date_int fs
    (take retry_count TDX_SERVERS) None)
    as [e Hr Hf|s starts Hs Hp Hr Hf|s starts all_data Hs Hp Hne Hr Hf];
    rewrite Hr.
  - by rewrite outcome_of_all_failed.
  - by rewrite outcome_of_no_data.
  - rewrite outcome_of_success. exists s, starts, all_data.
    repeat split; try done. rewrite Hf. fold file. intros Heq.
    apply (f_equal (λ m : directory, m !! file)) in Heq.
    rewrite lookup_insert_eq in Heq. congruence.
Qed.

(** ** [_download_batch] *)

Section batch_facts.
Variable TDX_SERVERS : list server.
Variable net : stock_row → server → session.
Variable date_int : Z.

Lemma complete_cons row tasks acc :
  complete TDX_SERVERS net date_int (row :: tasks) acc =
  complete TDX_SERVERS net date_int tasks
    (handle TDX_SERVERS net date_int row acc).
Proof.
  cbn [complete]. unfold handle.
  pose proof (fetch_code TDX_SERVERS (net row) (batch_files acc) row
    date_int 3) as Hcode.
  destruct (result _) as [[code success] message]. simpl in Hcode. subst.
  by destruct success.
Qed.

Lemma complete_count tasks acc :
  success_count (complete TDX_SERVERS net date_int tasks acc) +
  length (failed_list (complete TDX_SERVERS net date_int tasks acc)) =
  success_count acc + length (failed_list acc) + length tasks.
Proof.
  revert acc. induction tasks as [|row tasks IH]; intros acc.
  { simpl. lia. }
  rewrite complete_cons, IH. unfold handle. cbn.
  destruct (result _).1.2; [|rewrite length_app]; simpl; lia.
Qed.

(** The codes recorded as failed come from the tasks, in their order. *)
Lemma complete_failed_codes tasks acc :
  ∃ l,
    (failed_list (complete TDX_SERVERS net date_int tasks acc)).*1 =
      (failed_list acc).*1 ++ l ∧
    l `sublist_of` (stock_code <$> tasks).
Proof.
  revert acc. induction tasks as [|row tasks IH]; intros acc.
  { exists []. by rewrite app_nil_r. }
  rewrite complete_cons. destruct (IH (handle TDX_SERVERS net date_int row acc))
    as (l & -> & Hl).
  unfold handle. cbn. destruct (result _).1.2.
  - exists l. split; [done|]. by apply sublist_cons.
  - exists (stock_code row :: l). rewrite fmap_app, <- app_assoc.
    split; [done|]. by apply sublist_skip.
Qed.

Lemma complete_failed_prefix tasks acc :
  failed_list acc `prefix_of`
  failed_list (complete TDX_SERVERS net date_int tasks acc).
Proof.
  revert acc. induction tasks as [|row tasks IH]; intros acc; [done|].
  rewrite complete_cons. etrans; [|apply IH].
  unfold handle. cbn. destruct (result _).1.2; [done|].
  by apply prefix_app_r.
Qed.

(** A batch leaves alone the files of codes that are not among its tasks. *)
Lemma complete_files_other tasks acc code :
  code ∉ stock_code <$> tasks →
  batch_files (complete TDX_SERVERS net date_int tasks acc)
    !! file_path code =
  batch_files acc !! file_path code.
Proof.
  revert acc. induction tasks as [|row tasks IH]; intros acc Hnot; [done|].
  rewrite fmap_cons, not_elem_of_cons in Hnot. destruct Hnot as [Hne Hnot].
  rewrite complete_cons, IH by done. unfold handle. cbn.
  apply fetch_files_other. intros Heq. apply Hne.
  by eapply append_inj_l.
Qed.

(** With pairwise distinct codes, a row whose attempt on the directory of
    the start of the batch fails is recorded with its message, and its
    file stays as it was. *)
Lemma complete_records_failure tasks acc row message :
  NoDup (stock_code <$> tasks) →
  row ∈ tasks →
  result (fetch_single_stock TDX_SERVERS (net row) (batch_files acc) row
    date_int 3) = (stock_code row, false, message) →
  let b := complete TDX_SERVERS net date_int tasks acc in
  (stock_code row, message) ∈ failed_list b ∧
  batch_files b !! file_path (stock_code row) =
    batch_files acc !! file_path (stock_code row).
Proof.
  revert acc.
  induction tasks as [|row' tasks IH]; intros acc Hnd Hin Hres b.
  { by apply elem_of_nil in Hin. }
  rewrite fmap_cons, NoDup_cons in Hnd. destruct Hnd as [Hnot Hnd].
  unfold b. rewrite complete_cons.
  apply elem_of_cons in Hin as [<-|Hin].
  - split.
    + eapply elem_of_prefix; [|apply complete_failed_prefix].
      unfold handle. cbn. rewrite Hres. cbn.
      apply elem_of_app. right. constructor.
    + rewrite complete_files_other by done. unfold handle. cbn.
      rewrite fetch_failure_files; [done|]. by rewrite Hres.
  - assert (Hne : stock_code row ≠ stock_code row').
    { intros Heq. apply Hnot. rewrite <- Heq. by apply list_elem_of_fmap_2. }
    set (acc' := handle TDX_SERVERS net date_int row' acc).
    assert (Hsame :
      batch_files acc' !! file_path (stock_code row) =
      batch_files acc !! file_path (stock_code row)).
    { unfold acc', handle. cbn. apply fetch_files_other.
      intros Heq. apply Hne. by eapply append_inj_l. }
    destruct (IH acc' Hnd Hin) as [Hmem Hfile].
    { rewrite <- Hres. by apply fetch_result_local. }
    split; [done|]. by rewrite Hfile.
Qed.

End batch_facts.

(** ** [download_all_stocks] *)

Section run_facts.
Variable w : world.
Variable servers : list server.
Variable stocks_df : list stock_row.
Variable date_int : Z.
Variable max_workers : Z.
Hypothesis codes_distinct : NoDup (stock_code <$> stocks_df).
Hypothesis completion_order : ∀ r l, as_completed w r l ≡ₚ l.

Lemma retry_df_codes (failed : list (string * string)) :
  stock_code <$> retry_df stocks_df failed =
  filter (λ code, code ∈ failed.*1) (stock_code <$> stocks_df).
Proof.
  unfold retry_df. clear codes_distinct.
  induction stocks_df as [|row df IH]; [done|].
  rewrite fmap_cons, !filter_cons.
  destruct (decide (stock_code row ∈ failed.*1)); [|done].
  by rewrite fmap_cons, IH.
Qed.

Lemma retry_df_distinct failed :
  NoDup (stock_code <$> retry_df stocks_df failed).
Proof. rewrite retry_df_codes. by apply NoDup_filter. Qed.

Lemma retry_df_subset failed code :
  code ∈ stock_code <$> retry_df stocks_df failed → code ∈ failed.*1.
Proof. rewrite retry_df_codes, list_elem_of_filter. tauto. Qed.

Lemma retry_df_elem failed row :
  row ∈ stocks_df → stock_code row ∈ failed.*1 →
  row ∈ retry_df stocks_df failed.
Proof. intros. unfold retry_df. by apply list_elem_of_filter. Qed.

(** With distinct codes the retry frame has one row per failed code. *)
Lemma retry_df_length (failed : list (string * string)) :
  NoDup failed.*1 →
  (∀ code, code ∈ failed.*1 → code ∈ stock_code <$> stocks_df) →
  length (retry_df stocks_df failed) = length failed.
Proof.
  intros Hnd Hsub.
  rewrite <- (length_fmap stock_code), <- (length_fmap fst failed).
  apply Permutation_length. rewrite retry_df_codes.
  apply NoDup_Permutation; [by apply NoDup_filter|done|].
  intros code. rewrite list_elem_of_filter. split; [tauto|]. auto.
Qed.

(** A batch over a frame of distinct codes. *)
Lemma batch_accounts r fs df :
  NoDup (stock_code <$> df) →
  let b :=
    _download_batch servers (net w r) (as_completed w r) fs df date_int
      max_workers in
  success_count b + length (failed_list b) = length df ∧
  NoDup (failed_list b).*1 ∧
  (∀ code, code ∈ (failed_list b).*1 → code ∈ stock_code <$> df).
Proof.
  intros Hnd b. unfold b, _download_batch.
  set (acc := {| success_count := 0 |}).
  pose proof (complete_count servers (net w r) date_int
    (as_completed w r df) acc) as Hcount.
  destruct (complete_failed_codes servers (net w r) date_int
    (as_completed w r df) acc) as (l & Hl & Hsub).
  cbn in Hcount, Hl. rewrite Hcount, Hl.
  rewrite (Permutation_length (completion_order r df)).
  split; [done|].
  assert (Hperm : stock_code <$> as_completed w r df ≡ₚ stock_code <$> df)
    by (by rewrite completion_order).
  split.
  - eapply sublist_NoDup; [|exact Hsub].
    by apply (NoDup_Permutation_proper _ _ Hperm).
  - intros code Hin.
    eapply elem_of_Permutation_proper; [symmetry; exact Hperm|].
    by eapply elem_of_sublist.
Qed.

(** What the retry loop keeps: every row of the universe is counted as a
    success or listed as failed, once. *)
Lemma retry_loop_accounted remaining retry_round st :
  rs_success st + length (rs_failed st) = length stocks_df →
  NoDup (rs_failed st).*1 →
  (∀ code, code ∈ (rs_failed st).*1 → code ∈ stock_code <$> stocks_df) →
  let st' :=
    retry_loop w servers stocks_df date_int max_workers remaining
      retry_round st in
  rs_success st' + length (rs_failed st') = length stocks_df.
Proof.
  revert retry_round st.
  induction remaining as [|remaining IH]; intros retry_round st.
  { done. }
  intros Hcount Hnd Hsub. cbn [retry_loop].
  destruct (rs_failed st) as [|f failed] eqn:Hfailed.
  { cbn. by rewrite Hfailed. }
  rewrite <- Hfailed in *.
  destruct (batch_accounts retry_round (rs_files st)
    (retry_df stocks_df (rs_failed st)) (retry_df_distinct _))
    as (Hb & Hbnd & Hbsub).
  rewrite retry_df_length in Hb by done.
  apply IH; cbn; [lia|done|].
  intros code Hin. apply Hsub. by apply retry_df_subset, Hbsub.
Qed.

End run_facts.

(** C4: for a universe of pairwise distinct codes, whatever the servers
    do and in whatever order the tasks complete, the success count and the
    failure list passed to the report add up to the size of the universe. *)
Theorem report_accounts_for_universe w TDX_SERVERS stocks_df
    (fs : directory) date_int max_workers max_retry :
  NoDup (stock_code <$> stocks_df) →
  (∀ r l, as_completed w r l ≡ₚ l) →
  let rep :=
    run_report (download_all_stocks w TDX_SERVERS stocks_df fs date_int
      max_workers max_retry) in
  total rep = length stocks_df ∧
  report_success rep + length (report_failed rep) = total rep.
Proof.
  intros Hnd Hperm rep. split; [done|].
  unfold rep, download_all_stocks. cbn.
  set (servers := servers_in_use (probe w) TDX_SERVERS).
  destruct (batch_accounts w servers date_int max_workers Hperm 0 fs
    stocks_df Hnd) as (Hcount & Hfnd & Hsub).
  destruct (skip_retry _ _); [done|].
  by apply retry_loop_accounted.
Qed.

Section persistent_failure.
Variable w : world.
Variable servers : list server.
Variable stocks_df : list stock_row.
Variable date_int : Z.
Variable max_workers : Z.
Variable max_retry : nat.
Variable t : stock_row.
Hypothesis codes_distinct : NoDup (stock_code <$> stocks_df).
Hypothesis completion_order : ∀ r l, as_completed w r l ≡ₚ l.
Hypothesis t_in_universe : t ∈ stocks_df.
Hypothesis t_fails :
  ∀ r (fs : directory), r ≤ max_retry →
    fs !! file_path (stock_code t) = None →
    (result (fetch_single_stock servers (net w r t) fs t date_int 3)).1.2
    = false.

Lemma batch_keeps_failing r (fs : directory) df :
  r ≤ max_retry →
  NoDup (stock_code <$> df) →
  t ∈ df →
  fs !! file_path (stock_code t) = None →
  let b :=
    _download_batch servers (net w r) (as_completed w r) fs df date_int
      max_workers in
  stock_code t ∈ (failed_list b).*1 ∧
  batch_files b !! file_path (stock_code t) = None.
Proof.
  intros Hr Hnd Hin Hfs b. unfold b, _download_batch.
  set (acc := {| success_count := 0 |}).
  set (out := fetch_single_stock servers (net w r t) fs t date_int 3).
  assert (Hres : result out = (stock_code t, false, (result out).2)).
  { pose proof (fetch_code servers (net w r t) fs t date_int 3) as Hcode.
    pose proof (t_fails r fs Hr Hfs) as Hflag. fold out in Hcode, Hflag.
    destruct (result out) as [[code success] message].
    simpl in *. by subst. }
  destruct (complete_records_failure servers (net w r) date_int
    (as_completed w r df) acc t (result out).2) as [Hmem Hfile].
  - eapply NoDup_Permutation_proper; [|exact Hnd].
    by rewrite completion_order.
  - eapply elem_of_Permutation_proper; [apply completion_order|done].
  - done.
  - split; [|by rewrite Hfile].
    apply list_elem_of_fmap. by exists (stock_code t, (result out).2).
Qed.

Lemma retry_loop_keeps_failing remaining retry_round st :
  retry_round + remaining ≤ S max_retry →
  stock_code t ∈ (rs_failed st).*1 →
  rs_files st !! file_path (stock_code t) = None →
  stock_code t ∈
    (rs_failed (retry_loop w servers stocks_df date_int max_workers
       remaining retry_round st)).*1.
Proof.
  revert retry_round st.
  induction remaining as [|remaining IH]; intros retry_round st Hle Hin Hfs.
  { done. }
  cbn [retry_loop]. destruct (rs_failed st) as [|f failed] eqn:Hfailed.
  { by rewrite Hfailed. }
  rewrite <- Hfailed in *.
  destruct (batch_keeps_failing retry_round (rs_files st)
    (retry_df stocks_df (rs_failed st))) as [Hmem Hfile]; try done.
  - lia.
  - by apply retry_df_distinct.
  - by apply retry_df_elem.
  - apply IH; [lia|done..].
Qed.

End persistent_failure.

Lemma outcome_of_not_success r : outcome_of r ≠ Success → r.1.2 = false.
Proof. by destruct r as [[code []] message]. Qed.

Lemma outcome_of_no_data_inv r :
  outcome_of r = NoData →
  r.1.2 = false ∧ startswith r.2 no_data_marker = true.
Proof.
  destruct r as [[code []] message]; simpl; [done|].
  by destruct (startswith message no_data_marker).
Qed.

(** C8 (amended): a target that fails in round 0 and in every retry round
    1 .. [max_retry] is in the failure list of the report, whatever a
    later attempt would give; with [max_retry = 3] these are the rounds
    0, 1, 2 and 3, so the target that would first succeed in round 4 is
    reported as failed. *)
Theorem failure_through_last_retry w TDX_SERVERS stocks_df
    (fs : directory) date_int max_workers max_retry t :
  NoDup (stock_code <$> stocks_df) →
  (∀ r l, as_completed w r l ≡ₚ l) →
  t ∈ stocks_df →
  fs !! file_path (stock_code t) = None →
  (∀ r (fs' : directory), r ≤ max_retry →
     fs' !! file_path (stock_code t) = None →
     outcome_of (result (fetch_single_stock
       (servers_in_use (probe w) TDX_SERVERS) (net w r t) fs' t
       date_int 3)) ≠ Success) →
  stock_code t ∈
    (report_failed (run_report (download_all_stocks w TDX_SERVERS
       stocks_df fs date_int max_workers max_retry))).*1.
Proof.
  intros Hnd Hperm Hin Hfs Hfails.
  unfold download_all_stocks. cbn.
  set (servers := servers_in_use (probe w) TDX_SERVERS) in *.
  assert (Hflag : ∀ r (fs' : directory), r ≤ max_retry →
    fs' !! file_path (stock_code t) = None →
    (result (fetch_single_stock servers (net w r t) fs' t date_int 3)).1.2
    = false).
  { intros r fs' Hr Hfs'. by apply outcome_of_not_success, Hfails. }
  destruct (batch_keeps_failing w servers date_int max_workers max_retry t
    Hperm Hflag 0 fs stocks_df) as [Hmem Hfile]; [lia|done..|].
  destruct (skip_retry _ _); [done|].
  eapply retry_loop_keeps_failing; eauto.
Qed.

(** C3 (amended): a target whose attempt ends with the empty result
    NoData is returned with the success flag off, so the batch records it
    in its failure list like a Failed target, and the frame of the next
    retry round, selected by the codes of that list, contains it. *)
Theorem no_data_is_listed_as_failed TDX_SERVERS net as_completed
    (fs : directory) stocks_df date_int max_workers row :
  NoDup (stock_code <$> stocks_df) →
  as_completed stocks_df ≡ₚ stocks_df →
  row ∈ stocks_df →
  outcome_of (result (fetch_single_stock TDX_SERVERS (net row) fs row
    date_int 3)) = NoData →
  let b :=
    _download_batch TDX_SERVERS net as_completed fs stocks_df date_int
      max_workers in
  ∃ message,
    (stock_code row, message) ∈ failed_list b ∧
    outcome_of (stock_code row, false, message) = NoData ∧
    str_in no_data_marker message = true ∧
    row ∈ retry_df stocks_df (failed_list b).
Proof.
  intros Hnd Hperm Hin Hout b.
  set (out := fetch_single_stock TDX_SERVERS (net row) fs row date_int 3)
    in *.
  pose proof (fetch_code TDX_SERVERS (net row) fs row date_int 3) as Hcode.
  fold out in Hcode.
  destruct (outcome_of_no_data_inv _ Hout) as [Hflag Hstart].
  assert (Hres : result out = (stock_code row, false, (result out).2)).
  { destruct (result out) as [[code success] message]. simpl in *.
    by subst. }
  exists (result out).2.
  destruct (complete_records_failure TDX_SERVERS net date_int
    (as_completed stocks_df)
    {| success_count := 0; failed_list := [];
       batch_files := fs; batch_calls := [] |} row (result out).2)
    as [Hmem _].
  - eapply NoDup_Permutation_proper; [|exact Hnd]. by rewrite Hperm.
  - eapply elem_of_Permutation_proper; [exact Hperm|done].
  - done.
  - split; [done|]. split; [by rewrite <- Hres|].
    split; [by apply prefix_str_in|].
    apply retry_df_elem; [done|].
    apply list_elem_of_fmap. by exists (stock_code row, (result out).2).
Qed.

(** C7 (amended): for a universe below [2^49] rows, when strictly more
    than nine tenths of it is in the failure list of round 0 and the first
    entry of that list is an empty result NoData, no retry round runs: the
    only call of [_download_batch] is round 0 and the report is made from
    its results. *)
Theorem retries_skipped_when_no_data_dominates w TDX_SERVERS stocks_df
    (fs : directory) date_int max_workers max_retry code reason failed :
  (Z.of_nat (length stocks_df) < 2 ^ 49)%Z →
  failed_list (_download_batch (servers_in_use (probe w) TDX_SERVERS)
    (net w 0) (as_completed w 0) fs stocks_df date_int max_workers) =
    (code, reason) :: failed →
  9 * length stocks_df < 10 * length ((code, reason) :: failed) →
  outcome_of (code, false, reason) = NoData →
  let b :=
    _download_batch (servers_in_use (probe w) TDX_SERVERS) (net w 0)
      (as_completed w 0) fs stocks_df date_int max_workers in
  let out :=
    download_all_stocks w TDX_SERVERS stocks_df fs date_int max_workers
      max_retry in
  round_number <$> run_rounds out = [0] ∧
  run_report out =
    {| total := length stocks_df;
       report_success := success_count b;
       report_failed := failed_list b |} ∧
  run_files out = batch_files b ∧
  run_calls out = batch_calls b.
Proof.
  intros Hsize Hfailed Hmost Hreason b out.
  assert (Hskip : skip_retry (failed_list b) stocks_df = true).
  { unfold skip_retry, b. rewrite Hfailed.
    apply andb_true_intro. split.
    - by apply gt_times_0_9_spec.
    - apply prefix_str_in.
      by destruct (outcome_of_no_data_inv _ Hreason). }
  unfold out, download_all_stocks. fold b. by rewrite Hskip.
Qed.

(** ** The theorems at concrete inputs *)

Section instances.
Import scenarios.

Lemma in_order_permutation {A} (r : nat) (l : list A) : in_order r l ≡ₚ l.
Proof. done. Qed.

Lemma resume_guard_witness :
  let out := fetch_single_stock TDX_SERVERS three_pages resumed X date 3 in
  is_Some (resumed !! file_path (stock_code X)) ∧
  result out = ("600000", true, msg_exists) ∧
  calls out = [] ∧
  files out = resumed.
Proof.
  assert (H : is_Some (resumed !! file_path (stock_code X))).
  { vm_compute. eexists. reflexivity. }
  split; [exact H|].
  destruct (resume_guard TDX_SERVERS three_pages resumed X date 3 H)
    as (Hr & _ & Hc & Hf).
  repeat split; assumption.
Defined.

Lemma paginated_fetch_accumulates_witness :
  let out := fetch_single_stock TDX_SERVERS three_pages ∅ X date 3 in
  result out = ("600000", true, msg_downloaded 4001) ∧
  rows <$> files out !! "600000.parquet" =
    Some (full_page ++ full_page ++ [a_tick]).
Proof.
  destruct (paginated_fetch_accumulates TDX_SERVERS three_pages ∅ X date 3
    ("121.37.207.165", 7709%Z)
    [("202.108.253.131", 7709%Z); ("218.108.47.69", 7709%Z)]
    [full_page; full_page] [a_tick] [])
    as (_ & _ & Hr & _ & Hf).
  - reflexivity.
  - reflexivity.
  - reflexivity.
  - reflexivity.
  - reflexivity.
  - reflexivity.
  - repeat constructor; vm_compute; reflexivity.
  - apply Nat.ltb_lt. vm_compute. reflexivity.
  - split; [exact Hr|]. cbv zeta. rewrite Hf. vm_compute. reflexivity.
Defined.

Lemma sentinel_is_failure_witness :
  let out := fetch_single_stock TDX_SERVERS page_then_none ∅ X date 3 in
  outcome_of (result out) = Failed ∧ files out = ∅.
Proof.
  destruct (sentinel_is_failure TDX_SERVERS page_then_none ∅ X date 3)
    as (_ & Ho & _ & _ & Hf).
  - reflexivity.
  - intros s _. split; [reflexivity|].
    exists [full_page], []. split; [reflexivity|].
    apply Forall_singleton, Nat.leb_le. vm_compute. reflexivity.
  - split; assumption.
Defined.

Lemma report_accounts_for_universe_witness :
  let rep :=
    run_report (download_all_stocks world_A TDX_SERVERS [X; Y; Z'] ∅ date
      10 3) in
  total rep = 3 ∧ report_success rep + length (report_failed rep) = 3.
Proof.
  destruct (report_accounts_for_universe world_A TDX_SERVERS [X; Y; Z'] ∅
    date 10 3) as [Ht Hsum].
  - apply (bool_decide_unpack _). vm_compute. reflexivity.
  - intros r l. apply in_order_permutation.
  - split; [exact Ht|]. rewrite Hsum. exact Ht.
Defined.

Lemma failure_through_last_retry_witness :
  stock_code T ∈
    (report_failed (run_report (download_all_stocks world_D4 TDX_SERVERS
       [T] ∅ date 10 3))).*1.
Proof.
  apply (failure_through_last_retry world_D4 TDX_SERVERS [T] ∅ date 10 3 T).
  - apply (bool_decide_unpack _). vm_compute. reflexivity.
  - intros r l. apply in_order_permutation.
  - constructor.
  - reflexivity.
  - intros r fs' Hr Hfs'. unfold fetch_single_stock. rewrite Hfs'.
    do 4 (destruct r as [|r]; [vm_compute; discriminate|]). lia.
Defined.

Lemma no_data_is_listed_as_failed_witness :
  ∃ message,
    (stock_code Y, message) ∈
      failed_list (_download_batch TDX_SERVERS net_A (in_order 0) ∅
        [X; Y; Z'] date 10) ∧
    outcome_of (stock_code Y, false, message) = NoData.
Proof.
  destruct (no_data_is_listed_as_failed TDX_SERVERS net_A (in_order 0) ∅
    [X; Y; Z'] date 10 Y) as (message & Hmem & Ho & _).
  - apply (bool_decide_unpack _). vm_compute. reflexivity.
  - apply in_order_permutation.
  - do 2 constructor.
  - vm_compute. reflexivity.
  - exists message. split; assumption.
Defined.

Lemma retries_skipped_when_no_data_dominates_witness :
  round_number <$>
    run_rounds (download_all_stocks world_no_data TDX_SERVERS universe_C ∅
      date 10 3) = [0].
Proof.
  destruct (retries_skipped_when_no_data_dominates world_no_data
    TDX_SERVERS universe_C ∅ date 10 3 "000001" (msg_no_data 0)
    ((λ code, (code, msg_no_data 0)) <$>
       ["000002"; "000004"; "000006"; "000007"; "000008"; "000009";
        "000010"; "000011"; "000012"]))
    as (Hrounds & _).
  - vm_compute. reflexivity.
  - vm_compute. reflexivity.
  - apply Nat.ltb_lt. vm_compute. reflexivity.
  - vm_compute. reflexivity.
  - exact Hrounds.
Defined.

(** Scenario A as the code runs it: X is a success; Y and Z, both empty
    results, are the failure list of round 0, and the three retry rounds
    are run on them. *)
Lemma scenario_A_lists_no_data :
  let attempt row :=
    outcome_of (result (fetch_single_stock TDX_SERVERS (net_A row) ∅ row
      date 3)) in
  let b :=
    _download_batch TDX_SERVERS net_A (in_order 0) ∅ [X; Y; Z'] date 10 in
  let out :=
    download_all_stocks world_A TDX_SERVERS [X; Y; Z'] ∅ date 10 3 in
  attempt X = Success ∧ attempt Y = NoData ∧ attempt Z' = NoData ∧
  success_count b = 1 ∧
  failed_list b = [("000001", msg_no_data 0); ("300001", msg_no_data 0)] ∧
  failed_list b ≠ [] ∧
  round_input <$> run_rounds out = [[X; Y; Z']; [Y; Z']; [Y; Z']; [Y; Z']].
Proof. vm_compute. repeat split; discriminate. Qed.

(** Scenario C as the code runs it: nine of ten targets are empty
    results, nine is not more than [10 * 0.9], and the retry rounds 1, 2
    and 3 run, with network calls of their own. *)
Lemma scenario_C_retries_run :
  let b :=
    _download_batch TDX_SERVERS net_C (in_order 0) ∅ universe_C date 10 in
  let out :=
    download_all_stocks world_C TDX_SERVERS universe_C ∅ date 10 3 in
  length universe_C = 10 ∧
  length (failed_list b) = 9 ∧
  Forall (λ f, outcome_of (f.1, false, f.2) = NoData) (failed_list b) ∧
  skip_retry (failed_list b) universe_C = false ∧
  round_number <$> run_rounds out = [0; 1; 2; 3] ∧
  length (batch_calls b) < length (run_calls out).
Proof.
  vm_compute. repeat split; try reflexivity.
  - repeat constructor.
  - apply Nat.ltb_lt. vm_compute. reflexivity.
Qed.

(** Scenario D as the code runs it: the target fails in rounds 0, 1 and
    2, round 3 is the third retry round, and the target is among the
    successes of the report, whose failure list is empty. *)
Lemma scenario_D_succeeds_in_round_3 :
  let attempt r :=
    outcome_of (result (fetch_single_stock TDX_SERVERS (net world_D r T) ∅
      T date 3)) in
  let out := download_all_stocks world_D TDX_SERVERS [T] ∅ date 10 3 in
  attempt 0 = Failed ∧ attempt 1 = Failed ∧ attempt 2 = Failed ∧
  attempt 3 = Success ∧
  round_number <$> run_rounds out = [0; 1; 2; 3] ∧
  run_report out =
    {| total := 1; report_success := 1; report_failed := [] |} ∧
  stock_code T ∉ (report_failed (run_report out)).*1.
Proof.
  vm_compute. repeat split; try reflexivity.
  intros H. inversion H.
Qed.

End instances.

(** ** The rounds of [download_all_stocks] *)

Section rounds.
Variable w : world.
Variable servers : list server.
Variable stocks_df : list stock_row.
Variable date_int : Z.
Variable max_workers : Z.

Lemma retry_loop_rounds remaining retry_round st :
  adjacent (follows stocks_df) (rs_rounds st) →
  (∃ x, last (rs_rounds st) = Some x ∧
        round_failed x = rs_failed st ∧ round_workers x = max_workers) →
  adjacent (follows stocks_df)
    (rs_rounds (retry_loop w servers stocks_df date_int max_workers
       remaining retry_round st)).
Proof.
  revert retry_round st.
  induction remaining as [|n IH]; intros i st Hadj Hlast; [done|].
  cbn [retry_loop]. destruct (rs_failed st) as [|c cs] eqn:Hfailed; [done|].
  rewrite <- Hfailed in *. apply IH; cbn.
  - apply adjacent_snoc; [done|]. intros x Hx.
    destruct Hlast as (x' & Hx' & Hf & Hw). simplify_eq.
    split; cbn; [done|]. by rewrite Hf.
  - eexists. by rewrite last_snoc.
Qed.

End rounds.

(** X22: every retry round of [download_all_stocks] runs with the same
    number of workers as the round before and on exactly the rows of the
    universe whose code is in the failure list of the round before. *)
Lemma rounds_follow w TDX_SERVERS stocks_df (fs : directory) date_int
    max_workers max_retry :
  adjacent (follows stocks_df)
    (run_rounds (download_all_stocks w TDX_SERVERS stocks_df fs date_int
       max_workers max_retry)).
Proof.
  unfold download_all_stocks. cbn.
  destruct (skip_retry _ _); [apply adjacent_singleton|].
  apply retry_loop_rounds; cbn; [apply adjacent_singleton|by eexists].
Qed.

Lemma follows_subset stocks_df x y code :
  follows stocks_df x y →
  code ∈ stock_code <$> round_input y → code ∈ (round_failed x).*1.
Proof.
  intros [_ ->]. unfold retry_df. intros Hin.
  apply list_elem_of_fmap in Hin as (row & -> & Hrow).
  by apply list_elem_of_filter in Hrow as [? _].
Qed.

(** ** More on the pagination loop and the server loop *)

Lemma offsets_0 start : offsets start 0 = [].
Proof. done. Qed.

Lemma length_offsets start n : length (offsets start n) = n.
Proof. unfold offsets. by rewrite length_fmap, length_seq. Qed.

(** X1: whatever the server answers, the loop asks for the offsets
    [start], [start + B], [start + 2B], ... without a gap, at least once
    and at most once more than there are scripted answers, and every
    request after the first was earned by a page of at least [B] records:
    after [n] requests at least [(n - 1) * B] records were added. *)
Theorem fetch_pages_requests script start all_data :
  let '(starts, all_data', ex) := fetch_pages script start all_data in
  starts = offsets start (length starts) ∧
  1 ≤ length starts ≤ S (length script) ∧
  length all_data + (length starts - 1) * batch_size ≤ length all_data'.
Proof.
  revert start all_data.
  induction script as [|reply script IH]; intros start all_data.
  { cbn -[offsets]. rewrite offsets_S, offsets_0. split; [done|lia]. }
  destruct reply as [data| |e]; cbn [fetch_pages];
    try (cbn -[offsets]; rewrite offsets_S, offsets_0; split; [done|lia]).
  destruct (Nat.eqb_spec (length data) 0).
  { cbn -[offsets]. rewrite offsets_S, offsets_0. split; [done|lia]. }
  destruct (Nat.ltb_spec (length data) batch_size).
  { cbn -[offsets]. rewrite offsets_S, offsets_0, length_app. split; [done|lia]. }
  specialize (IH (start + batch_size) (all_data ++ data)).
  destruct (fetch_pages script (start + batch_size) (all_data ++ data))
    as [[starts all_data'] ex].
  destruct IH as (Hst & Hlen & Hdata). rewrite length_app in Hdata.
  cbn [length]. rewrite offsets_S, <- Hst.
  split; [done|]. split; [lia|]. nia.
Qed.

(** X2: the script read by the loop is a run of pages of at least [B]
    records followed by what ended the loop, and [all_data] is exactly
    those pages in order, then the ending page if there is one: the loop
    ends normally only on a page shorter than [B] (the empty page
    included), with [data is None] only on a [None] answer, and by an
    exception only when a request raises. *)
Theorem fetch_pages_exit script start all_data :
  let '(starts, all_data', ex) := fetch_pages script start all_data in
  ∃ fulls,
    (Page <$> fulls) `prefix_of` script ∧
    Forall (λ p, batch_size ≤ length p) fulls ∧
    length starts = S (length fulls) ∧
    match ex with
    | DataIsPage =>
        ∃ last,
          script !! length fulls = Some (Page last) ∧
          length last < batch_size ∧
          all_data' = all_data ++ concat fulls ++ last
    | DataIsNone =>
        script !! length fulls = Some NoneReply ∧
        all_data' = all_data ++ concat fulls
    | Raised e =>
        (script !! length fulls = Some (GetRaises e) ∨
         length fulls = length script ∧ e = script_exhausted) ∧
        all_data' = all_data ++ concat fulls
    end.
Proof.
  revert start all_data.
  induction script as [|reply script IH]; intros start all_data.
  { cbn. exists []. rewrite app_nil_r.
    repeat split; [apply prefix_nil|done|by right]. }
  destruct reply as [data| |e]; cbn [fetch_pages].
  - destruct (Nat.eqb_spec (length data) 0) as [H0|Hn0].
    { exists []. cbn. repeat split; [apply prefix_nil|done|].
      exists data. apply nil_length_inv in H0 as ->.
      pose proof batch_size_pos. by rewrite app_nil_r. }
    destruct (Nat.ltb_spec (length data) batch_size).
    { exists []. cbn. repeat split; [apply prefix_nil|done|].
      by exists data. }
    specialize (IH (start + batch_size) (all_data ++ data)).
    destruct (fetch_pages script (start + batch_size) (all_data ++ data))
      as [[starts all_data'] ex].
    destruct IH as (fulls & Hpre & Hfull & Hlen & Hex).
    exists (data :: fulls). cbn [fmap list_fmap length concat lookup].
    split; [by apply prefix_cons|]. split; [by constructor|].
    split; [by rewrite Hlen|].
    destruct ex as [| |e].
    + destruct Hex as [Hl ->]. by rewrite <- !app_assoc.
    + destruct Hex as (last & Hl & Hlt & ->). exists last.
      by rewrite <- !app_assoc.
    + destruct Hex as [Hl ->]. rewrite <- !app_assoc. split; [|done].
      destruct Hl as [Hl|[Hl ->]]; [by left|right]. by rewrite Hl.
  - exists []. cbn. rewrite app_nil_r.
    repeat split; [apply prefix_nil|done].
  - exists []. cbn. rewrite app_nil_r.
    repeat split; [apply prefix_nil|done|by left].
Qed.

Lemma connected_app calls1 calls2 :
  connected (calls1 ++ calls2) = connected calls1 ++ connected calls2.
Proof. apply omap_app. Qed.

Lemma connected_connect s calls :
  connected (Connect s :: calls) = s :: connected calls.
Proof. done. Qed.

Lemma connected_requests row date_int s starts :
  connected (request row date_int s <$> starts) = [].
Proof. by induction starts. Qed.

Lemma requests_server row date_int s starts :
  Forall (λ ev, event_server ev = s) (request row date_int s <$> starts).
Proof. apply Forall_fmap, Forall_true. done. Qed.

Lemma calls_after evs out : calls (after evs out) = evs ++ calls out.
Proof. done. Qed.

Section server_loop.
Variable net : server → session.
Variable fs : directory.
Variable row : stock_row.
Variable date_int : Z.

(** A pass that ends with [continue] hands its error to the rest of the
    loop; its calls all go to its server, with one connect. *)
Lemma try_servers_continue s servers last_error e :
  pass_error s (net s) = Some e →
  ∃ evs,
    try_servers net fs row date_int (s :: servers) last_error =
      after evs (try_servers net fs row date_int servers (Some e)) ∧
    connected evs = [s] ∧
    Forall (λ ev, event_server ev = s) evs.
Proof.
  unfold pass_error. cbn [try_servers]. intros Hpass.
  destruct (connect (net s)).
  - destruct (fetch_pages (replies (net s)) 0 []) as [[starts all_data] ex].
    assert (Hreq : ∀ tail,
      connected tail = [] → Forall (λ ev, event_server ev = s) tail →
      connected ((Connect s :: (request row date_int s <$> starts)) ++ tail)
        = [s] ∧
      Forall (λ ev, event_server ev = s)
        ((Connect s :: (request row date_int s <$> starts)) ++ tail)).
    { intros tail Hc Hs. split.
      - rewrite connected_app, Hc, app_nil_r.
        by rewrite connected_connect, connected_requests.
      - apply Forall_app. split; [|done].
        constructor; [done|apply requests_server]. }
    destruct ex, (disconnect_error (net s)); simplify_eq;
      try (eexists; split; [done|]; apply Hreq; [done|by repeat constructor]).
    destruct all_data; [done|]. destruct (save_error (net s)); [|done].
    simplify_eq.
    eexists; split; [done|]; apply Hreq; [done|by repeat constructor].
  - simplify_eq. eexists; split; [done|]. by repeat constructor.
  - simplify_eq. eexists; split; [done|]. by repeat constructor.
Qed.

(** A pass that returns does not look at the servers after it. *)
Lemma try_servers_return s servers last_error :
  pass_error s (net s) = None →
  try_servers net fs row date_int (s :: servers) last_error =
    try_servers net fs row date_int [s] None ∧
  (result (try_servers net fs row date_int [s] None)).2 ≠
    msg_all_failed None ∧
  outcome_of (result (try_servers net fs row date_int [s] None)) ≠ Failed ∧
  connected (calls (try_servers net fs row date_int [s] None)) = [s] ∧
  Forall (λ ev, event_server ev = s)
    (calls (try_servers net fs row date_int [s] None)).
Proof.
  unfold pass_error. cbn [try_servers]. intros Hpass.
  destruct (connect (net s)); [|done..].
  destruct (fetch_pages (replies (net s)) 0 []) as [[starts all_data] ex].
  assert (Hreq :
    connected ((Connect s :: (request row date_int s <$> starts)) ++
      [Disconnect s]) = [s] ∧
    Forall (λ ev, event_server ev = s)
      ((Connect s :: (request row date_int s <$> starts)) ++
       [Disconnect s])).
  { split.
    - rewrite connected_app, connected_connect, connected_requests.
      done.
    - apply Forall_app. split; [|by repeat constructor].
      constructor; [done|apply requests_server]. }
  destruct ex, (disconnect_error (net s)); try done.
  destruct all_data; [by cbn|].
  destruct (save_error (net s)); [done|]. by cbn.
Qed.

Lemma try_servers_failover bad s rest last_error :
  Forall (λ b, is_Some (pass_error b (net b))) bad →
  pass_error s (net s) = None →
  result (try_servers net fs row date_int (bad ++ s :: rest) last_error) =
    result (try_servers net fs row date_int [s] None) ∧
  files (try_servers net fs row date_int (bad ++ s :: rest) last_error) =
    files (try_servers net fs row date_int [s] None) ∧
  connected
    (calls (try_servers net fs row date_int (bad ++ s :: rest) last_error))
    = bad ++ [s].
Proof.
  intros Hbad Hs. revert last_error.
  induction Hbad as [|b bad [e Hb] _ IH]; intros last_error.
  - cbn [app]. destruct (try_servers_return s rest last_error Hs)
      as (-> & _ & _ & Hc & _). done.
  - cbn [app].
    destruct (try_servers_continue b (bad ++ s :: rest) last_error e Hb)
      as (evs & -> & Hc & _).
    destruct (IH (Some e)) as (Hr & Hf & Hcalls).
    rewrite after_result, after_files, calls_after, connected_app, Hc.
    by rewrite Hr, Hf, Hcalls.
Qed.

Lemma try_servers_all_fail servers last_error :
  Forall (λ s, is_Some (pass_error s (net s))) servers →
  result (try_servers net fs row date_int servers last_error) =
    (stock_code row, false,
     msg_all_failed
       (match last servers with
        | Some s => pass_error s (net s)
        | None => last_error
        end)) ∧
  files (try_servers net fs row date_int servers last_error) = fs ∧
  connected (calls (try_servers net fs row date_int servers last_error))
    = servers.
Proof.
  intros Hall. revert last_error.
  induction Hall as [|s servers [e Hs] Hall IH]; intros last_error; [done|].
  destruct (try_servers_continue s servers last_error e Hs)
    as (evs & -> & Hc & _).
  destruct (IH (Some e)) as (Hr & Hf & Hcalls).
  rewrite after_result, after_files, calls_after, connected_app, Hc.
  rewrite Hr, Hf, Hcalls. split; [|done].
  destruct servers as [|s' servers]; [cbn; by rewrite Hs|].
  rewrite last_cons_cons.
  destruct (last (s' :: servers)) eqn:Hl; [done|].
  by apply last_None in Hl.
Qed.

(** The servers connected to are the first of the list, in its order,
    and every call goes to one of them. *)
Lemma try_servers_calls servers last_error :
  connected (calls (try_servers net fs row date_int servers last_error))
    `prefix_of` servers ∧
  Forall
    (λ ev, event_server ev ∈
       connected (calls (try_servers net fs row date_int servers
         last_error)))
    (calls (try_servers net fs row date_int servers last_error)).
Proof.
  revert last_error.
  induction servers as [|s servers IH]; intros last_error.
  { split; [done|constructor]. }
  destruct (pass_error s (net s)) as [e|] eqn:Hs.
  - destruct (try_servers_continue s servers last_error e Hs)
      as (evs & -> & Hc & Hevs).
    destruct (IH (Some e)) as [Hpre Hall].
    rewrite calls_after, connected_app, Hc. split.
    + by apply prefix_cons.
    + apply Forall_app. split.
      * eapply Forall_impl; [exact Hevs|]. intros ev ->. by left.
      * eapply Forall_impl; [exact Hall|]. intros ev Hev. by right.
  - destruct (try_servers_return s servers last_error Hs)
      as (-> & _ & _ & Hc & Hevs).
    rewrite Hc. split.
    + apply prefix_cons, prefix_nil.
    + eapply Forall_impl; [exact Hevs|]. intros ev ->. by left.
Qed.

End server_loop.

(** ** Failover, in terms of [fetch_single_stock] *)

(** X3: with the file absent, the first server whose pass returns decides
    the attempt: when the servers before it all end their pass with
    [continue] (connection refused, exception, [None] page, failed save),
    the triple returned and the file saved are those of a fetch from that
    server alone, the outcome is not Failed, the servers connected to are
    exactly those up to it, and the servers after it are not contacted. *)
Theorem first_answering_server_decides TDX_SERVERS net (fs : directory) row
    date_int retry_count bad s rest :
  fs !! file_path (stock_code row) = None →
  take retry_count TDX_SERVERS = bad ++ s :: rest →
  Forall (λ b, is_Some (pass_error b (net b))) bad →
  pass_error s (net s) = None →
  let out :=
    fetch_single_stock TDX_SERVERS net fs row date_int retry_count in
  let alone := fetch_single_stock [s] net fs row date_int 1 in
  result out = result alone ∧
  files out = files alone ∧
  outcome_of (result out) ≠ Failed ∧
  connected (calls out) = bad ++ [s].
Proof.
  intros Hfs Htake Hbad Hs out alone. unfold out, alone.
  rewrite !fetch_absent, Htake by done. cbn [take].
  destruct (try_servers_failover net fs row date_int bad s rest None Hbad Hs)
    as (Hr & Hf & Hc).
  destruct (try_servers_return net fs row date_int s [] None Hs)
    as (_ & _ & Hout & _).
  by rewrite Hr, Hf, Hc.
Qed.

(** X4: with the file absent, when the pass of every server tried ends
    with [continue], the attempt returns the failure of line 180 with the
    error of the last server tried (the text None when no server is
    tried, as with [retry_count = 0]), every server of
    [TDX_SERVERS[:retry_count]] was connected to, in order, and nothing
    is saved. *)
Theorem all_servers_fail_reports_last_error TDX_SERVERS net
    (fs : directory) row date_int retry_count :
  fs !! file_path (stock_code row) = None →
  Forall (λ s, is_Some (pass_error s (net s)))
    (take retry_count TDX_SERVERS) →
  let out :=
    fetch_single_stock TDX_SERVERS net fs row date_int retry_count in
  result out =
    (stock_code row, false,
     msg_all_failed
       (last (take retry_count TDX_SERVERS) ≫= λ s, pass_error s (net s)))
  ∧ files out = fs
  ∧ connected (calls out) = take retry_count TDX_SERVERS.
Proof.
  intros Hfs Hall out. unfold out. rewrite fetch_absent by done.
  destruct (try_servers_all_fail net fs row date_int
    (take retry_count TDX_SERVERS) None Hall) as (Hr & Hf & Hc).
  rewrite Hr, Hf, Hc. by destruct (last _).
Qed.

(** X5: in every attempt the servers connected to are the first entries
    of [TDX_SERVERS], in its order and each at most once per entry, never
    more than [retry_count] of them, and every request and disconnect
    goes to a server the attempt connected to. *)
Theorem calls_follow_server_list TDX_SERVERS net (fs : directory) row
    date_int retry_count :
  let out :=
    fetch_single_stock TDX_SERVERS net fs row date_int retry_count in
  connected (calls out) `prefix_of` TDX_SERVERS ∧
  length (connected (calls out)) ≤ retry_count ∧
  Forall (λ ev, event_server ev ∈ connected (calls out)) (calls out).
Proof.
  intros out. unfold out, fetch_single_stock.
  destruct (fs !! file_path (stock_code row)).
  { cbn. split; [apply prefix_nil|]. split; [lia|constructor]. }
  destruct (try_servers_calls net fs row date_int
    (take retry_count TDX_SERVERS) None) as [Hpre Hall].
  split; [|split; [|done]].
  - etrans; [exact Hpre|]. apply prefix_take.
  - apply prefix_length in Hpre. rewrite length_take in Hpre. lia.
Qed.

(** X6: a successful attempt makes the next attempt for the same row a
    skip: run again on the directory it left, with any servers and any
    answers, [fetch_single_stock] returns the skip message, makes no
    network call and leaves the directory as it is. *)
Theorem refetch_after_success TDX_SERVERS net (fs : directory) row date_int
    retry_count TDX_SERVERS' net' date_int' retry_count' :
  let out :=
    fetch_single_stock TDX_SERVERS net fs row date_int retry_count in
  (result out).1.2 = true →
  let again :=
    fetch_single_stock TDX_SERVERS' net' (files out) row date_int'
      retry_count' in
  result again = (stock_code row, true, msg_exists) ∧
  calls again = [] ∧
  files again = files out.
Proof.
  intros out Hok again.
  assert (Hfile : is_Some (files out !! file_path (stock_code row))).
  { unfold out, fetch_single_stock in *.
    destruct (fs !! file_path (stock_code row)) eqn:Hfs.
    { cbn. rewrite Hfs. by eexists. }
    destruct (try_servers_ends net row date_int fs
      (take retry_count TDX_SERVERS) None)
      as [e Hr Hf|s starts Hs Hp Hr Hf|s starts all_data Hs Hp Hne Hr Hf];
      rewrite Hr in Hok; try done.
    rewrite Hf, lookup_insert_eq. by eexists. }
  destruct Hfile as [df Hdf]. unfold again, fetch_single_stock.
  by rewrite Hdf.
Qed.

(** ** The directory over a batch and a run *)

Lemma extends_refl stocks_df date_int (fs : directory) :
  extends stocks_df date_int fs fs.
Proof. split; [done|]. intros f df Hf. by left. Qed.

Lemma extends_trans stocks_df date_int (fs1 fs2 fs3 : directory) :
  extends stocks_df date_int fs1 fs2 →
  extends stocks_df date_int fs2 fs3 →
  extends stocks_df date_int fs1 fs3.
Proof.
  intros [Hsub1 Hnew1] [Hsub2 Hnew2]. split; [by etrans|].
  intros f df Hf. destruct (Hnew2 f df Hf) as [Hold|[Hnone Hw]].
  - by apply Hnew1.
  - right. split; [|done].
    destruct (fs1 !! f) as [df'|] eqn:Hf1; [|done].
    eapply lookup_weaken in Hf1; [|exact Hsub1]. congruence.
Qed.

Lemma fetch_extends servers net (fs : directory) stocks_df row date_int
    retry_count :
  row ∈ stocks_df →
  extends stocks_df date_int fs
    (files (fetch_single_stock servers net fs row date_int retry_count)).
Proof.
  intros Hrow. unfold fetch_single_stock.
  destruct (fs !! file_path (stock_code row)) eqn:Hfs;
    [apply extends_refl|].
  destruct (try_servers_ends net row date_int fs (take retry_count servers)
    None) as [e _ ->|s starts _ _ _ ->|s starts all_data _ _ Hne _ ->];
    [apply extends_refl..|].
  split; [by apply insert_subseteq|].
  intros f df. rewrite lookup_insert. case_decide as Hf.
  - intros [= <-]. right. subst f. split; [done|]. by exists row.
  - intros Hdf. by left.
Qed.

(** Whether an attempt is a skip, a download or a failure, afterwards the
    file of the row exists exactly when the success flag is on. *)
Lemma fetch_file_iff servers net (fs : directory) row date_int retry_count :
  let out := fetch_single_stock servers net fs row date_int retry_count in
  if (result out).1.2
  then is_Some (files out !! file_path (stock_code row))
  else files out !! file_path (stock_code row) = None.
Proof.
  cbv zeta. unfold fetch_single_stock.
  destruct (fs !! file_path (stock_code row)) eqn:Hfs.
  { cbn. rewrite Hfs. by eexists. }
  destruct (try_servers_ends net row date_int fs (take retry_count servers)
    None) as [e -> ->|s starts _ _ -> ->|s starts all_data _ _ _ -> ->];
    cbn; [done..|].
  rewrite lookup_insert_eq. by eexists.
Qed.

Section batch_directory.
Variable servers : list server.
Variable net : stock_row → server → session.
Variable date_int : Z.

Lemma complete_extends stocks_df tasks acc :
  Forall (λ row, row ∈ stocks_df) tasks →
  extends stocks_df date_int (batch_files acc)
    (batch_files (complete servers net date_int tasks acc)).
Proof.
  intros Htasks. revert acc.
  induction Htasks as [|row tasks Hrow _ IH]; intros acc.
  { apply extends_refl. }
  rewrite complete_cons. eapply extends_trans; [|apply IH].
  unfold handle. cbn. by apply fetch_extends.
Qed.

(** With pairwise distinct codes and no code of the batch listed before
    it, after the batch the file of a task is absent when its code is in
    the failure list and present when it is not. *)
Lemma complete_partition tasks acc row :
  NoDup (stock_code <$> tasks) →
  (∀ code, code ∈ (failed_list acc).*1 → code ∉ stock_code <$> tasks) →
  row ∈ tasks →
  let b := complete servers net date_int tasks acc in
  if bool_decide (stock_code row ∈ (failed_list b).*1)
  then batch_files b !! file_path (stock_code row) = None
  else is_Some (batch_files b !! file_path (stock_code row)).
Proof.
  revert acc.
  induction tasks as [|row' tasks IH]; intros acc Hnd Hacc Hin b.
  { by apply elem_of_nil in Hin. }
  rewrite fmap_cons, NoDup_cons in Hnd. destruct Hnd as [Hnot Hnd].
  unfold b. rewrite complete_cons.
  set (acc' := handle servers net date_int row' acc).
  destruct (complete_failed_codes servers net date_int tasks acc')
    as (l & Hl & Hsub).
  apply elem_of_cons in Hin as [->|Hin].
  - rewrite complete_files_other by done.
    pose proof (fetch_file_iff servers (net row') (batch_files acc) row'
      date_int 3) as Hfile. cbv zeta in Hfile.
    rewrite Hl. unfold acc', handle. cbn.
    destruct (result _).1.2.
    + rewrite bool_decide_eq_false_2; [done|].
      rewrite elem_of_app. intros [Hold|Hnew].
      * eapply Hacc; [exact Hold|]. rewrite fmap_cons. by left.
      * apply Hnot. by eapply elem_of_sublist.
    + rewrite bool_decide_eq_true_2; [done|].
      rewrite fmap_app, !elem_of_app. left. right. cbn. by left.
  - apply IH; [done| |done].
    intros code Hcode Htask. unfold acc', handle in Hcode. cbn in Hcode.
    destruct (result _).1.2.
    + eapply Hacc; [exact Hcode|]. rewrite fmap_cons. by right.
    + rewrite fmap_app, elem_of_app in Hcode. destruct Hcode as [Hold|Hnew].
      * eapply Hacc; [exact Hold|]. rewrite fmap_cons. by right.
      * cbn in Hnew. apply list_elem_of_singleton in Hnew as ->. done.
Qed.

(** A batch over rows whose files all exist is a batch of skips. *)
Lemma complete_resumed tasks acc :
  Forall (λ row, is_Some (batch_files acc !! file_path (stock_code row)))
    tasks →
  complete servers net date_int tasks acc =
  {| success_count := success_count acc + length tasks;
     failed_list := failed_list acc;
     batch_files := batch_files acc;
     batch_calls := batch_calls acc |}.
Proof.
  intros Hall. revert acc Hall.
  induction tasks as [|row tasks IH]; intros acc Hall.
  { destruct acc. cbn. f_equal. lia. }
  apply Forall_cons in Hall as [[df Hdf] Hall].
  rewrite complete_cons.
  assert (Hacc : handle servers net date_int row acc =
    {| success_count := S (success_count acc);
       failed_list := failed_list acc;
       batch_files := batch_files acc;
       batch_calls := batch_calls acc |}).
  { unfold handle, fetch_single_stock. rewrite Hdf. cbn.
    by rewrite app_nil_r. }
  rewrite Hacc, IH by done. cbn. f_equal. lia.
Qed.

(** Every call of a batch goes to one of the first three servers. *)
Lemma complete_calls tasks acc :
  Forall (λ ev, event_server ev ∈ take 3 servers) (batch_calls acc) →
  Forall (λ ev, event_server ev ∈ take 3 servers)
    (batch_calls (complete servers net date_int tasks acc)).
Proof.
  revert acc. induction tasks as [|row tasks IH]; intros acc Hacc; [done|].
  rewrite complete_cons. apply IH. unfold handle. cbn.
  apply Forall_app. split; [done|].
  unfold fetch_single_stock.
  destruct (batch_files acc !! file_path (stock_code row)); [constructor|].
  destruct (try_servers_calls (net row) (batch_files acc) row date_int
    (take 3 servers) None) as [Hpre Hall].
  eapply Forall_impl; [exact Hall|]. intros ev Hev.
  eapply elem_of_prefix; [exact Hev|exact Hpre].
Qed.

End batch_directory.

Section run_directory.
Variable w : world.
Variable servers : list server.
Variable stocks_df : list stock_row.
Variable date_int : Z.
Variable max_workers : Z.

Lemma batch_grows r (fs : directory) df :
  fs ⊆ batch_files (_download_batch servers (net w r) (as_completed w r) fs
    df date_int max_workers).
Proof.
  unfold _download_batch.
  eapply (complete_extends servers (net w r) date_int
    (as_completed w r df) (as_completed w r df)
    {| success_count := 0; failed_list := [];
       batch_files := fs; batch_calls := [] |}).
  by apply Forall_forall.
Qed.

Lemma retry_loop_grows remaining retry_round st :
  rs_files st ⊆
  rs_files (retry_loop w servers stocks_df date_int max_workers remaining
    retry_round st).
Proof.
  revert retry_round st.
  induction remaining as [|n IH]; intros r st; [done|].
  cbn [retry_loop]. destruct (rs_failed st); [done|].
  etrans; [|apply IH]. cbn. apply batch_grows.
Qed.

Hypothesis completion_order : ∀ r l, as_completed w r l ≡ₚ l.

Lemma batch_extends r (fs : directory) df :
  (∀ row, row ∈ df → row ∈ stocks_df) →
  extends stocks_df date_int fs
    (batch_files (_download_batch servers (net w r) (as_completed w r) fs
       df date_int max_workers)).
Proof.
  intros Hdf. unfold _download_batch.
  eapply (complete_extends servers (net w r) date_int stocks_df
    (as_completed w r df)
    {| success_count := 0; failed_list := [];
       batch_files := fs; batch_calls := [] |}).
  apply Forall_forall. intros row Hrow. apply Hdf.
  eapply elem_of_Permutation_proper; [symmetry; apply completion_order|done].
Qed.

Lemma retry_loop_extends remaining retry_round st :
  extends stocks_df date_int (rs_files st)
    (rs_files (retry_loop w servers stocks_df date_int max_workers
       remaining retry_round st)).
Proof.
  revert retry_round st.
  induction remaining as [|n IH]; intros r st; [apply extends_refl|].
  cbn [retry_loop]. destruct (rs_failed st); [apply extends_refl|].
  eapply extends_trans; [|apply IH]. cbn. apply batch_extends.
  intros row Hrow. unfold retry_df in Hrow.
  by apply list_elem_of_filter in Hrow as [_ ?].
Qed.

(** The codes a batch lists as failed are codes of the frame it got. *)
Lemma batch_failed_codes r (fs : directory) df code :
  code ∈ (failed_list (_download_batch servers (net w r)
    (as_completed w r) fs df date_int max_workers)).*1 →
  code ∈ stock_code <$> df.
Proof.
  unfold _download_batch.
  destruct (complete_failed_codes servers (net w r) date_int
    (as_completed w r df)
    {| success_count := 0; failed_list := [];
       batch_files := fs; batch_calls := [] |}) as (l & -> & Hsub).
  cbn. intros Hin.
  eapply elem_of_Permutation_proper;
    [apply fmap_Permutation; symmetry; apply completion_order|].
  by eapply elem_of_sublist.
Qed.

(** The retry rounds never put back a code that was not failed. *)
Lemma retry_loop_failed_codes remaining retry_round st code :
  code ∈ (rs_failed (retry_loop w servers stocks_df date_int max_workers
    remaining retry_round st)).*1 →
  code ∈ (rs_failed st).*1.
Proof.
  revert retry_round st.
  induction remaining as [|n IH]; intros r st; [done|].
  cbn [retry_loop]. destruct (rs_failed st) as [|f failed] eqn:Hf.
  { by rewrite Hf. }
  rewrite <- Hf. intros Hin. apply IH in Hin. cbn in Hin.
  apply batch_failed_codes in Hin.
  apply list_elem_of_fmap in Hin as (row & -> & Hrow).
  unfold retry_df in Hrow. by apply list_elem_of_filter in Hrow as [? _].
Qed.

Lemma retry_loop_success remaining retry_round st :
  rs_success st ≤
  rs_success (retry_loop w servers stocks_df date_int max_workers remaining
    retry_round st).
Proof.
  revert retry_round st.
  induction remaining as [|n IH]; intros r st; [done|].
  cbn [retry_loop]. destruct (rs_failed st); [done|].
  etrans; [|apply IH]. cbn. lia.
Qed.

Hypothesis codes_distinct : NoDup (stock_code <$> stocks_df).

(** A batch over a frame of distinct codes sorts its rows: failed and
    without file, or with file. *)
Lemma batch_partition r (fs : directory) df row :
  NoDup (stock_code <$> df) →
  row ∈ df →
  let b :=
    _download_batch servers (net w r) (as_completed w r) fs df date_int
      max_workers in
  if bool_decide (stock_code row ∈ (failed_list b).*1)
  then batch_files b !! file_path (stock_code row) = None
  else is_Some (batch_files b !! file_path (stock_code row)).
Proof.
  intros Hnd Hrow. unfold _download_batch.
  apply complete_partition.
  - eapply NoDup_Permutation_proper; [|exact Hnd].
    apply fmap_Permutation, completion_order.
  - cbn. intros code Hcode. by apply elem_of_nil in Hcode.
  - eapply elem_of_Permutation_proper; [apply completion_order|done].
Qed.

Lemma batch_files_other r (fs : directory) df code :
  code ∉ stock_code <$> df →
  batch_files (_download_batch servers (net w r) (as_completed w r) fs df
    date_int max_workers) !! file_path code = fs !! file_path code.
Proof.
  intros Hnot. unfold _download_batch.
  rewrite complete_files_other; [done|]. intros Hin. apply Hnot.
  eapply elem_of_Permutation_proper;
    [apply fmap_Permutation; symmetry; apply completion_order|done].
Qed.

(** What the retry loop keeps, for every row of the universe: listed as
    failed and without file, or not listed and with file. *)
Lemma retry_loop_partition remaining retry_round st :
  (∀ row, row ∈ stocks_df →
     if bool_decide (stock_code row ∈ (rs_failed st).*1)
     then rs_files st !! file_path (stock_code row) = None
     else is_Some (rs_files st !! file_path (stock_code row))) →
  ∀ row, row ∈ stocks_df →
    let st' :=
      retry_loop w servers stocks_df date_int max_workers remaining
        retry_round st in
    if bool_decide (stock_code row ∈ (rs_failed st').*1)
    then rs_files st' !! file_path (stock_code row) = None
    else is_Some (rs_files st' !! file_path (stock_code row)).
Proof.
  revert retry_round st.
  induction remaining as [|n IH]; intros r st Hst; [done|].
  cbn [retry_loop]. destruct (rs_failed st) as [|f failed] eqn:Hf.
  { cbn. by rewrite Hf. }
  rewrite <- Hf in *. apply IH. cbn. intros row Hrow.
  destruct (decide (stock_code row ∈ (rs_failed st).*1)) as [Hin|Hnot].
  - apply batch_partition; [apply retry_df_distinct; done|].
    by apply retry_df_elem.
  - assert (Hcode : stock_code row ∉
      stock_code <$> retry_df stocks_df (rs_failed st)).
    { intros Hc. by apply retry_df_subset in Hc. }
    rewrite bool_decide_eq_false_2.
    + rewrite batch_files_other by done.
      specialize (Hst row Hrow). by rewrite bool_decide_eq_false_2 in Hst.
    + intros Hc. by apply batch_failed_codes in Hc.
Qed.

End run_directory.

(** ** The server list *)

Lemma servers_in_use_sublist probe servers :
  servers_in_use probe servers `sublist_of` servers.
Proof.
  unfold servers_in_use, test_connectivity.
  assert (Hsub : List.filter probe servers `sublist_of` servers).
  { induction servers as [|s l IH]; [done|]. cbn.
    destruct (probe s); [by apply sublist_skip|by apply sublist_cons]. }
  by destruct (List.filter probe servers).
Qed.

Lemma servers_in_use_nonempty probe servers :
  servers ≠ [] → servers_in_use probe servers ≠ [].
Proof.
  unfold servers_in_use. by destruct (test_connectivity probe servers).
Qed.

Lemma servers_in_use_probe probe servers s :
  s ∈ servers_in_use probe servers →
  probe s = true ∨ Forall (λ s', probe s' = false) servers.
Proof.
  unfold servers_in_use, test_connectivity.
  destruct (List.filter probe servers) as [|v vs] eqn:Hv.
  - intros _. right. apply Forall_forall. intros s' Hs'.
    destruct (probe s') eqn:Hp; [|done].
    assert (Hin : In s' (List.filter probe servers)).
    { apply filter_In. split; [by apply list_elem_of_In|done]. }
    rewrite Hv in Hin. done.
  - rewrite <- Hv. intros Hs. left.
    apply list_elem_of_In, filter_In in Hs. tauto.
Qed.

(** ** Rounds and calls of a run *)

Section run_rounds.
Variable w : world.
Variable servers : list server.
Variable stocks_df : list stock_row.
Variable date_int : Z.
Variable max_workers : Z.

Lemma retry_loop_numbers remaining retry_round st :
  round_number <$> rs_rounds st = seq 0 retry_round →
  let st' :=
    retry_loop w servers stocks_df date_int max_workers remaining
      retry_round st in
  round_number <$> rs_rounds st' = seq 0 (length (rs_rounds st')) ∧
  retry_round ≤ length (rs_rounds st') ≤ retry_round + remaining ∧
  (length (rs_rounds st') < retry_round + remaining → rs_failed st' = []).
Proof.
  revert retry_round st.
  induction remaining as [|n IH]; intros r st Hst.
  { cbn. apply (f_equal length) in Hst as Hlen.
    rewrite length_fmap, length_seq in Hlen. rewrite Hlen.
    split; [done|]. lia. }
  cbn [retry_loop]. destruct (rs_failed st) as [|f failed] eqn:Hf.
  { cbn. apply (f_equal length) in Hst as Hlen.
    rewrite length_fmap, length_seq in Hlen. rewrite Hlen.
    split; [done|]. split; [lia|done]. }
  rewrite <- Hf.
  match goal with |- context [retry_loop _ _ _ _ _ n (S r) ?st1] =>
    specialize (IH (S r) st1) end.
  destruct IH as (Hnum & Hlen & Hstop).
  { cbn [rs_rounds]. by rewrite fmap_app, Hst, seq_S. }
  split; [done|]. split; [lia|]. intros Hlt. apply Hstop. lia.
Qed.

Lemma retry_loop_calls remaining retry_round st :
  Forall (λ ev, event_server ev ∈ take 3 servers) (rs_calls st) →
  Forall (λ ev, event_server ev ∈ take 3 servers)
    (rs_calls (retry_loop w servers stocks_df date_int max_workers
       remaining retry_round st)).
Proof.
  revert retry_round st.
  induction remaining as [|n IH]; intros r st Hst; [done|].
  cbn [retry_loop]. destruct (rs_failed st); [done|].
  apply IH. cbn. apply Forall_app. split; [done|].
  unfold _download_batch. by apply complete_calls.
Qed.

End run_rounds.

(** A run from a directory in which every row has its file. *)
Lemma run_resumed w TDX_SERVERS stocks_df (fs : directory) date_int
    max_workers max_retry :
  (∀ r l, as_completed w r l ≡ₚ l) →
  (∀ row, row ∈ stocks_df →
     is_Some (fs !! file_path (stock_code row))) →
  let out :=
    download_all_stocks w TDX_SERVERS stocks_df fs date_int max_workers
      max_retry in
  run_report out =
    {| total := length stocks_df;
       report_success := length stocks_df;
       report_failed := [] |} ∧
  run_calls out = [] ∧
  run_files out = fs ∧
  round_number <$> run_rounds out = [0].
Proof.
  intros Hperm Hall out. unfold out, download_all_stocks, _download_batch.
  rewrite complete_resumed.
  2:{ apply Forall_forall. intros row Hrow. cbn. apply Hall.
      eapply elem_of_Permutation_proper; [symmetry; apply Hperm|done]. }
  cbn. unfold skip_retry. rewrite andb_false_r.
  rewrite (Permutation_length (Hperm 0 stocks_df)).
  by destruct max_retry.
Qed.

(** ** A whole run *)



(** X9: for a universe of pairwise distinct codes, the report and the
    directory agree at the end of a run: a row is in the failure list
    exactly when its file does not exist. Every row counted as a success
    has its file, and no row reported as failed has one. *)
Theorem report_failed_iff_no_file w TDX_SERVERS stocks_df (fs : directory)
    date_int max_workers max_retry row :
  NoDup (stock_code <$> stocks_df) →
  (∀ r l, as_completed w r l ≡ₚ l) →
  row ∈ stocks_df →
  let out :=
    download_all_stocks w TDX_SERVERS stocks_df fs date_int max_workers
      max_retry in
  stock_code row ∈ (report_failed (run_report out)).*1 ↔
  run_files out !! file_path (stock_code row) = None.
Proof.
  intros Hnd Hperm Hrow out.
  set (servers := servers_in_use (probe w) TDX_SERVERS).
  assert (H0 : ∀ row, row ∈ stocks_df →
    let b := _download_batch servers (net w 0) (as_completed w 0) fs
      stocks_df date_int max_workers in
    if bool_decide (stock_code row ∈ (failed_list b).*1)
    then batch_files b !! file_path (stock_code row) = None
    else is_Some (batch_files b !! file_path (stock_code row))).
  { intros row' Hrow'. by apply batch_partition. }
  assert (Hend :
    if bool_decide (stock_code row ∈ (report_failed (run_report out)).*1)
    then run_files out !! file_path (stock_code row) = None
    else is_Some (run_files out !! file_path (stock_code row))).
  { unfold out, download_all_stocks. fold servers. cbn.
    destruct (skip_retry _ _); [by apply H0|].
    by apply (retry_loop_partition w servers stocks_df date_int max_workers
      Hperm Hnd max_retry 1). }
  case_bool_decide as Hin; [done|].
  destruct Hend as [df Hdf]. rewrite Hdf. split; [done|discriminate].
Qed.

(** X10: the calls of [_download_batch] of a run are numbered 0, 1, 2,
    ... without a gap; there is at least round 0 and there are at most
    [max_retry] retry rounds; and the run stops before the budget is used
    up only when no failure is left or when the skip test of line 234
    holds after round 0. *)
Theorem rounds_are_numbered_and_bounded w TDX_SERVERS stocks_df
    (fs : directory) date_int max_workers max_retry :
  let out :=
    download_all_stocks w TDX_SERVERS stocks_df fs date_int max_workers
      max_retry in
  let failed0 :=
    failed_list (_download_batch (servers_in_use (probe w) TDX_SERVERS)
      (net w 0) (as_completed w 0) fs stocks_df date_int max_workers) in
  round_number <$> run_rounds out = seq 0 (length (run_rounds out)) ∧
  1 ≤ length (run_rounds out) ≤ S max_retry ∧
  (length (run_rounds out) < S max_retry →
   report_failed (run_report out) = [] ∨
   skip_retry failed0 stocks_df = true).
Proof.
  intros out failed0. unfold out, download_all_stocks. fold failed0. cbn.
  destruct (skip_retry failed0 stocks_df) eqn:Hskip.
  { cbn. split; [done|]. split; [lia|]. by right. }
  match goal with |- context [retry_loop _ ?sv _ _ _ _ 1 ?st0] =>
    destruct (retry_loop_numbers w sv stocks_df date_int max_workers
      max_retry 1 st0) as (Hnum & Hlen & Hstop); [done|]
  end.
  split; [done|]. split; [lia|]. intros Hlt. left. apply Hstop. lia.
Qed.

(** X11: retry rounds only take codes off the failure list and only add
    to the success count: every code in the final failure list was
    already in the failure list of round 0, and the final success count
    is at least that of round 0. *)
Theorem retries_only_shrink_failures w TDX_SERVERS stocks_df
    (fs : directory) date_int max_workers max_retry :
  (∀ r l, as_completed w r l ≡ₚ l) →
  let out :=
    download_all_stocks w TDX_SERVERS stocks_df fs date_int max_workers
      max_retry in
  let b0 :=
    _download_batch (servers_in_use (probe w) TDX_SERVERS) (net w 0)
      (as_completed w 0) fs stocks_df date_int max_workers in
  (∀ code, code ∈ (report_failed (run_report out)).*1 →
     code ∈ (failed_list b0).*1) ∧
  success_count b0 ≤ report_success (run_report out).
Proof.
  intros Hperm out b0. unfold out, download_all_stocks. fold b0. cbn.
  destruct (skip_retry _ _); [done|]. split.
  - intros code Hcode.
    by apply (retry_loop_failed_codes w _ stocks_df date_int max_workers
      Hperm max_retry 1) in Hcode.
  - match goal with |- context [retry_loop _ ?sv _ _ _ _ 1 ?st0] =>
      apply (retry_loop_success w sv stocks_df date_int max_workers
        max_retry 1 st0)
    end.
Qed.

(** X12: a run over a directory in which the file of every row already
    exists reports every row as a success, has an empty failure list,
    makes no network call for any stock, runs round 0 only and leaves the
    directory as it was. *)
Theorem resumed_run_is_free w TDX_SERVERS stocks_df (fs : directory)
    date_int max_workers max_retry :
  (∀ r l, as_completed w r l ≡ₚ l) →
  (∀ row, row ∈ stocks_df →
     is_Some (fs !! file_path (stock_code row))) →
  let out :=
    download_all_stocks w TDX_SERVERS stocks_df fs date_int max_workers
      max_retry in
  report_success (run_report out) = length stocks_df ∧
  report_failed (run_report out) = [] ∧
  run_calls out = [] ∧
  run_files out = fs ∧
  round_number <$> run_rounds out = [0].
Proof.
  intros Hperm Hall out.
  destruct (run_resumed w TDX_SERVERS stocks_df fs date_int max_workers
    max_retry Hperm Hall) as (Hrep & Hcalls & Hfiles & Hrounds).
  fold out in Hrep, Hcalls, Hfiles, Hrounds. by rewrite Hrep.
Qed.

(** X13: for a universe of pairwise distinct codes, a run that ends with
    an empty failure list makes the next run over the same universe and
    directory free: whatever the servers then do, the second run reports
    every row as a success without any network call for a stock and
    leaves the directory as the first run left it. *)
Theorem rerun_after_full_success w w' TDX_SERVERS TDX_SERVERS' stocks_df
    (fs : directory) date_int date_int' max_workers max_workers' max_retry
    max_retry' :
  NoDup (stock_code <$> stocks_df) →
  (∀ r l, as_completed w r l ≡ₚ l) →
  (∀ r l, as_completed w' r l ≡ₚ l) →
  let out :=
    download_all_stocks w TDX_SERVERS stocks_df fs date_int max_workers
      max_retry in
  report_failed (run_report out) = [] →
  let again :=
    download_all_stocks w' TDX_SERVERS' stocks_df (run_files out) date_int'
      max_workers' max_retry' in
  report_success (run_report again) = length stocks_df ∧
  report_failed (run_report again) = [] ∧
  run_calls again = [] ∧
  run_files again = run_files out.
Proof.
  intros Hnd Hperm Hperm' out Hnone again.
  set (servers := servers_in_use (probe w) TDX_SERVERS).
  assert (Hall : ∀ row, row ∈ stocks_df →
    is_Some (run_files out !! file_path (stock_code row))).
  { intros row Hrow.
    assert (Hend :
      if bool_decide
        (stock_code row ∈ (report_failed (run_report out)).*1)
      then run_files out !! file_path (stock_code row) = None
      else is_Some (run_files out !! file_path (stock_code row))).
    { unfold out, download_all_stocks. fold servers. cbn.
      destruct (skip_retry _ _); [by apply batch_partition|].
      apply (retry_loop_partition w servers stocks_df date_int max_workers
        Hperm Hnd max_retry 1); [|done].
      intros row' Hrow'. by apply batch_partition. }
    rewrite Hnone in Hend. by rewrite bool_decide_eq_false_2 in Hend
      by (intros Hin; by apply elem_of_nil in Hin). }
  destruct (run_resumed w' TDX_SERVERS' stocks_df (run_files out) date_int'
    max_workers' max_retry' Hperm' Hall) as (Hrep & Hcalls & Hfiles & _).
  fold again in Hrep, Hcalls, Hfiles. by rewrite Hrep.
Qed.

(** X14: every network call a run makes for a stock goes to one of the
    first three servers of the list in use, which are servers of the
    configured list; and unless no configured server answered the probe,
    every server contacted is one that answered it. *)
Theorem run_contacts_probed_servers w TDX_SERVERS stocks_df
    (fs : directory) date_int max_workers max_retry :
  let out :=
    download_all_stocks w TDX_SERVERS stocks_df fs date_int max_workers
      max_retry in
  Forall
    (λ ev,
       event_server ev ∈ take 3 (servers_in_use (probe w) TDX_SERVERS) ∧
       event_server ev ∈ TDX_SERVERS ∧
       (probe w (event_server ev) = true ∨
        Forall (λ s, probe w s = false) TDX_SERVERS))
    (run_calls out).
Proof.
  intros out.
  set (servers := servers_in_use (probe w) TDX_SERVERS).
  assert (Hcalls :
    Forall (λ ev, event_server ev ∈ take 3 servers) (run_calls out)).
  { unfold out, download_all_stocks. fold servers. cbn.
    destruct (skip_retry _ _).
    - cbn. unfold _download_batch. by apply complete_calls.
    - apply retry_loop_calls. cbn. unfold _download_batch.
      by apply complete_calls. }
  eapply Forall_impl; [exact Hcalls|]. intros ev Hev. cbn beta.
  assert (Hin : event_server ev ∈ servers).
  { eapply elem_of_prefix; [exact Hev|apply prefix_take]. }
  split; [done|]. split.
  - eapply elem_of_sublist; [exact Hin|apply servers_in_use_sublist].
  - by apply servers_in_use_probe.
Qed.

(** ** [download_date_range] *)

Lemma date_loop_days rw stocks_df max_workers max_retry n current servers :
  (date_loop rw stocks_df max_workers max_retry n current servers).1.*1 =
  filter (λ day, (weekday day < 5)%Z) (seqZ current (Z.of_nat n)).
Proof.
  revert current servers.
  induction n as [|n IH]; intros current servers; [done|].
  rewrite seqZ_cons by lia. rewrite filter_cons.
  replace (Z.pred (Z.of_nat (S n))) with (Z.of_nat n) by lia.
  cbn [date_loop].
  destruct (Z.ltb_spec (weekday current) 5).
  - rewrite decide_True by done.
    specialize (IH (current + 1)%Z
      (servers_in_use (probe (day_world rw current)) servers)).
    destruct (date_loop rw stocks_df max_workers max_retry n
      (current + 1)%Z _) as [runs final].
    cbn in *. by rewrite IH.
  - rewrite decide_False by lia. apply IH.
Qed.

Lemma adjacent_cons {A} (P : A → A → Prop) x l :
  (∀ y, head l = Some y → P x y) →
  adjacent P l →
  adjacent P (x :: l).
Proof.
  intros Hhead Hl [|i] a b Ha Hb.
  - injection Ha as <-. apply Hhead. by destruct l.
  - by eapply Hl.
Qed.

(** The server lists of the successive runs: each is what the probe of
    the run before left of the list before. *)
Lemma date_loop_servers rw stocks_df max_workers max_retry n current
    servers :
  let '(runs, final) :=
    date_loop rw stocks_df max_workers max_retry n current servers in
  ∃ useds,
    Forall2
      (λ run used,
         run.2 =
           download_all_stocks (day_world rw run.1) used stocks_df
             (day_files rw run.1) (date_int_of rw run.1) max_workers
             max_retry)
      runs useds ∧
    head (useds ++ [final]) = Some servers ∧
    adjacent (λ a b, b `sublist_of` a ∧ (a ≠ [] → b ≠ []))
      (useds ++ [final]).
Proof.
  revert current servers.
  induction n as [|n IH]; intros current servers.
  { exists []. split; [constructor|]. split; [done|].
    apply adjacent_singleton. }
  cbn [date_loop]. destruct (weekday current <? 5)%Z; [|apply IH].
  set (next := servers_in_use (probe (day_world rw current)) servers).
  specialize (IH (current + 1)%Z next).
  destruct (date_loop rw stocks_df max_workers max_retry n
    (current + 1)%Z next) as [runs final].
  destruct IH as (useds & Hruns & Hhead & Hadj).
  exists (servers :: useds). split; [by constructor|]. split; [done|].
  cbn [app]. apply adjacent_cons; [|done].
  intros y Hy. rewrite Hhead in Hy. injection Hy as <-. split.
  - apply servers_in_use_sublist.
  - apply servers_in_use_nonempty.
Qed.



(** ** The further theorems at concrete inputs *)

Section more_instances.
Import scenarios.

Lemma first_answering_server_decides_witness :
  let out := fetch_single_stock TDX_SERVERS net_B ∅ X date 3 in
  result out = ("600000", true, msg_downloaded 1) ∧
  connected (calls out) = TDX_SERVERS.
Proof.
  destruct (first_answering_server_decides TDX_SERVERS net_B ∅ X date 3
    [("121.37.207.165", 7709%Z); ("202.108.253.131", 7709%Z)]
    ("218.108.47.69", 7709%Z) []) as (Hr & _ & _ & Hc).
  - reflexivity.
  - reflexivity.
  - repeat constructor; vm_compute; eexists; reflexivity.
  - vm_compute. reflexivity.
  - split; [|exact Hc]. cbv zeta. rewrite Hr. vm_compute. reflexivity.
Defined.

Lemma all_servers_fail_reports_last_error_witness :
  let out := fetch_single_stock TDX_SERVERS net_down ∅ X date 3 in
  result out =
    ("600000", false,
     msg_all_failed (Some (err_no_connection ("218.108.47.69", 7709%Z)))) ∧
  connected (calls out) = TDX_SERVERS.
Proof.
  destruct (all_servers_fail_reports_last_error TDX_SERVERS net_down ∅ X
    date 3) as (Hr & _ & Hc).
  - reflexivity.
  - repeat constructor; vm_compute; eexists; reflexivity.
  - split; [exact Hr|exact Hc].
Defined.

Lemma refetch_after_success_witness :
  let out := fetch_single_stock TDX_SERVERS three_pages ∅ X date 3 in
  let again := fetch_single_stock TDX_SERVERS net_down (files out) X date 3 in
  result again = ("600000", true, msg_exists) ∧ calls again = [].
Proof.
  destruct (refetch_after_success TDX_SERVERS three_pages ∅ X date 3
    TDX_SERVERS net_down date 3) as (Hr & Hc & _).
  - vm_compute. reflexivity.
  - split; [exact Hr|exact Hc].
Defined.


Lemma report_failed_iff_no_file_witness :
  let out := download_all_stocks world_A TDX_SERVERS [X; Y; Z'] ∅ date 10 3 in
  stock_code Y ∈ (report_failed (run_report out)).*1 ↔
  run_files out !! file_path (stock_code Y) = None.
Proof.
  apply (report_failed_iff_no_file world_A TDX_SERVERS [X; Y; Z'] ∅ date
    10 3 Y).
  - apply (bool_decide_unpack _). vm_compute. reflexivity.
  - intros r l. apply in_order_permutation.
  - do 2 constructor.
Defined.

Lemma retries_only_shrink_failures_witness :
  let out := download_all_stocks world_A TDX_SERVERS [X; Y; Z'] ∅ date 10 3 in
  let b0 :=
    _download_batch (servers_in_use (probe world_A) TDX_SERVERS)
      (net world_A 0) (as_completed world_A 0) ∅ [X; Y; Z'] date 10 in
  (∀ code, code ∈ (report_failed (run_report out)).*1 →
     code ∈ (failed_list b0).*1) ∧
  success_count b0 ≤ report_success (run_report out).
Proof.
  apply (retries_only_shrink_failures world_A TDX_SERVERS [X; Y; Z'] ∅
    date 10 3).
  intros r l. apply in_order_permutation.
Defined.

Lemma resumed_run_is_free_witness :
  let out := download_all_stocks world_A TDX_SERVERS [X] resumed date 10 3 in
  report_success (run_report out) = 1 ∧ run_calls out = [] ∧
  run_files out = resumed.
Proof.
  destruct (resumed_run_is_free world_A TDX_SERVERS [X] resumed date 10 3)
    as (Hs & _ & Hc & Hf & _).
  - intros r l. apply in_order_permutation.
  - intros row Hrow. apply list_elem_of_singleton in Hrow as ->.
    vm_compute. eexists. reflexivity.
  - split; [exact Hs|]. split; [exact Hc|exact Hf].
Defined.

Lemma rerun_after_full_success_witness :
  let out := download_all_stocks world_ok TDX_SERVERS [X; Y; Z'] ∅ date 10 3 in
  let again :=
    download_all_stocks world_D TDX_SERVERS [X; Y; Z'] (run_files out) date
      5 3 in
  report_success (run_report again) = 3 ∧ run_calls again = [].
Proof.
  destruct (rerun_after_full_success world_ok world_D TDX_SERVERS
    TDX_SERVERS [X; Y; Z'] ∅ date date 10 5 3 3) as (Hs & _ & Hc & _).
  - apply (bool_decide_unpack _). vm_compute. reflexivity.
  - intros r l. apply in_order_permutation.
  - intros r l. apply in_order_permutation.
  - vm_compute. reflexivity.
  - split; [exact Hs|exact Hc].
Defined.

End more_instances.

(** ** The skip test *)

(** X24: for a universe below [2^49] rows the floating-point test of line
    234 is the exact one: the retry rounds are skipped exactly when the
    failure list of round 0 holds strictly more than nine tenths of the
    universe and the reason of its first entry contains the no-data
    marker. An empty failure list never skips, and the reasons of the
    other entries are not looked at. *)
Theorem skip_test_is_exact (failed : list (string * string))
    (stocks_df : list stock_row) :
  (Z.of_nat (length stocks_df) < 2 ^ 49)%Z →
  skip_retry failed stocks_df = true ↔
  9 * length stocks_df < 10 * length failed ∧
  ∃ code reason rest,
    failed = (code, reason) :: rest ∧
    str_in no_data_marker reason = true.
Proof.
  intros Hsize. unfold skip_retry.
  rewrite andb_true_iff, (gt_times_0_9_spec _ _ Hsize).
  split.
  - intros [Hmost Hfirst]. split; [done|].
    destruct failed as [|[code reason] rest]; [done|]. by eexists _, _, _.
  - intros [Hmost (code & reason & rest & -> & Hfirst)]. done.
Qed.

Lemma skip_test_is_exact_witness :
  skip_retry [("000001", msg_no_data 0); ("000002", "尝试均失败")]
    [scenarios.X; scenarios.Y] = true.
Proof.
  apply (skip_test_is_exact
    [("000001", msg_no_data 0); ("000002", "尝试均失败"%string)]
    [scenarios.X; scenarios.Y]).
  - reflexivity.
  - split; [cbn; lia|]. eexists _, _, _. split; reflexivity.
Defined.

End downloader_facts.

(** ** [download_pre_close.py] *)

Module download_pre_close_facts.
Import download_pre_close.

Local Open Scope Z_scope.

(** From five workers on, the retry rounds do not use more of them. *)
Lemma retry_workers_le max_workers :
  5 ≤ max_workers → retry_workers max_workers ≤ max_workers.
Proof.
  intros H. unfold retry_workers.
  pose proof (Z.quot_lt max_workers 2 ltac:(lia) ltac:(lia)). lia.
Qed.

(** Below five workers, the retry rounds use five. *)
Lemma retry_workers_floor max_workers :
  max_workers < 5 → retry_workers max_workers = 5.
Proof.
  intros H. unfold retry_workers.
  destruct (Z.le_gt_cases 0 max_workers).
  - pose proof (Z.quot_le_upper_bound max_workers 2 5 ltac:(lia)
      ltac:(lia)). pose proof (Z.quot_pos max_workers 2). lia.
  - pose proof (Z.quot_opp_l max_workers 2 ltac:(lia)).
    pose proof (Z.quot_pos (- max_workers) 2 ltac:(lia) ltac:(lia)). lia.
Qed.

Local Close Scope Z_scope.

Section rounds.
Variable w : world.
Variable max_workers : Z.

Lemma pre_close_retry_loop_rounds n i st :
  adjacent (follows max_workers) (rounds st) →
  (∃ x, last (rounds st) = Some x ∧ round_failed x = failed st) →
  adjacent (follows max_workers) (rounds (retry_loop w max_workers n i st)).
Proof.
  revert i st. induction n as [|n IH]; intros i st Hadj Hlast; [done|].
  cbn [retry_loop]. destruct (failed st) as [|c cs] eqn:Hfailed; [done|].
  rewrite <- Hfailed in *. apply IH; cbn.
  - apply adjacent_snoc; [done|]. intros x Hx.
    destruct Hlast as (x' & Hx' & Hf). by simplify_eq.
  - eexists. by rewrite last_snoc.
Qed.

(** The retry rounds of [download_pre_close_parallel] are given the codes
    that failed in the round before. *)
Lemma pre_close_rounds_follow stock_codes max_retries :
  adjacent (follows max_workers)
    (rounds (download_pre_close_parallel w stock_codes max_workers
       max_retries)).
Proof.
  unfold download_pre_close_parallel. apply pre_close_retry_loop_rounds; cbn.
  - apply adjacent_singleton.
  - by eexists.
Qed.

End rounds.

(** C9: [get_stock_pre_close_single] sends exactly one request, whatever
    the answer; its [secid] has market 1 for a code that starts with 6
    and market 0 for every other code; a returned quote carries the code
    asked for and an [f60] that is not the placeholder ["-"]; and when the
    [f60] of the answer is ["-"] the result is [None]. *)
Theorem point_lookup_single_request http stock_code' :
  let '(result, reqs) := get_stock_pre_close_single http stock_code' in
  market_prefix stock_code' =
    (if startswith stock_code' "6" then "1" else "0") ∧
  reqs =
    [{| url := base_url;
        secid := market_prefix stock_code' +:+ "." +:+ stock_code';
        fields := "f60" |}] ∧
  (∀ q, result = Some q →
     stock_code q = stock_code' ∧
     is_placeholder (pre_close q) = false ∧
     pre_close q ≠ JString "-") ∧
  (∀ status data d,
     http {| url := base_url; secid := make_secid stock_code';
             fields := "f60" |} = Response status (Some data) →
     get data "data" = Some d →
     get d "f60" = Some (JString "-") →
     result = None).
Proof.
  cbn. split; [|split; [done|split]].
  - unfold market_prefix. by repeat destruct (startswith _ _).
  - intros q Hq. unfold parse_reply in Hq.
    repeat (case_match; try discriminate). simplify_eq. cbn.
    split; [done|]. split; [done|]. intros ->. discriminate.
  - intros status data d -> Hd Hf. cbn. rewrite Hd, Hf. cbn.
    by repeat case_match.
Qed.

(** X23: from five workers on, no round of [download_pre_close_parallel]
    uses more workers than the round before. *)
Lemma workers_do_not_grow w stock_codes max_workers max_retries :
  (5 ≤ max_workers)%Z →
  adjacent (λ x y, (round_workers y ≤ round_workers x)%Z)
    (rounds (download_pre_close_parallel w stock_codes max_workers
       max_retries)).
Proof.
  intros Hfive.
  assert (Hall : ∀ n i st,
    Forall (λ x, round_workers x = max_workers ∨
                 round_workers x = retry_workers max_workers) (rounds st) →
    Forall (λ x, round_workers x = max_workers ∨
                 round_workers x = retry_workers max_workers)
      (rounds (retry_loop w max_workers n i st))).
  { induction n as [|n IH]; intros i st Hst; [done|].
    cbn [retry_loop]. destruct (failed st); [done|].
    apply IH. cbn. apply Forall_app. split; [done|].
    apply Forall_singleton. by right. }
  pose proof (pre_close_rounds_follow w max_workers stock_codes max_retries) as Hadj.
  pose proof (retry_workers_le max_workers Hfive) as Hle.
  intros i x y Hx Hy. destruct (Hadj i x y Hx Hy) as [_ ->].
  unfold download_pre_close_parallel in Hx.
  assert (Hw : round_workers x = max_workers ∨
               round_workers x = retry_workers max_workers).
  { refine (Forall_lookup_1
      (λ x, round_workers x = max_workers ∨
            round_workers x = retry_workers max_workers) _ i x _ Hx).
    apply Hall. cbn. apply Forall_singleton. by left. }
  by destruct Hw as [-> | ->].
Qed.

(** C6, at [max_workers = 2] with one code whose requests all fail: the
    first download runs with 2 workers and each of the three retry rounds
    with 5, more than the round before the first of them; every retry
    round is given exactly the codes that failed in the round before. *)
Theorem retry_round_raises_concurrency :
  let run :=
    download_pre_close_parallel scenarios.world_offline ["600000"] 2 3 in
  round_workers <$> rounds run = [2; 5; 5; 5]%Z ∧
  round_input <$> rounds run =
    [["600000"]; ["600000"]; ["600000"]; ["600000"]] ∧
  ¬ adjacent (λ x y, (round_workers y ≤ round_workers x)%Z) (rounds run).
Proof.
  split; [done|]. split; [done|].
  intros Hadj. by specialize (Hadj 0 _ _ eq_refl eq_refl).
Qed.

(** ** More on the point lookup *)

Lemma single_requests http code :
  (get_stock_pre_close_single http code).2 = [request_for code].
Proof. done. Qed.

Lemma single_result http code :
  (get_stock_pre_close_single http code).1 =
  parse_reply code (http (request_for code)).
Proof. done. Qed.

Lemma parse_reply_some code reply q :
  parse_reply code reply = Some q ↔
  ∃ body d,
    reply = Response 200 (Some body) ∧
    get body "data" = Some d ∧
    truthy d = true ∧
    get d "f60" = Some (pre_close q) ∧
    valid_quote q ∧
    stock_code q = code.
Proof.
  unfold parse_reply, valid_quote. split.
  - intros Hq. destruct reply as [status body|]; [|done].
    case_bool_decide as Hstatus; [done|].
    assert (status = 200%Z) as -> by (by destruct (decide (status = 200%Z))).
    destruct body as [body|]; [|done].
    destruct (get body "data") as [d|] eqn:Hd; [|done].
    destruct (truthy d) eqn:Htd; [|done].
    destruct (get d "f60") as [f60|] eqn:Hf; [|done].
    destruct (truthy f60) eqn:Htf; [|done].
    destruct (is_placeholder f60) eqn:Hp; [done|].
    injection Hq as <-. by exists body, d.
  - intros (body & d & -> & Hd & Htd & Hf & [Htf Hp] & <-).
    rewrite bool_decide_eq_false_2 by (intros H; by apply H).
    rewrite Hd, Htd, Hf, Htf, Hp. by destruct q.
Qed.

(** X17: [get_stock_pre_close_single] returns a quote exactly when the
    answer has status 200, its body decodes to an object whose member
    [data] is a non-empty object with a truthy member [f60] other than
    ["-"]; the quote then carries the code asked for and that [f60]. In
    every other case (exception, other status, undecodable body, missing
    or null [data], missing [f60], an [f60] of 0 or of the empty string,
    the placeholder) the result is [None]. *)
Theorem quote_returned_iff http code q :
  (get_stock_pre_close_single http code).1 = Some q ↔
  ∃ body d,
    http (request_for code) = Response 200 (Some body) ∧
    get body "data" = Some d ∧
    truthy d = true ∧
    get d "f60" = Some (pre_close q) ∧
    valid_quote q ∧
    stock_code q = code.
Proof. rewrite single_result. apply parse_reply_some. Qed.

Lemma market_prefix_cases code :
  market_prefix code = "0" ∨ market_prefix code = "1".
Proof.
  unfold market_prefix. repeat destruct (startswith _ _); auto.
Qed.

(** X18: the [secid] of a request is the market digit, a dot and the
    code, so two codes with the same [secid] are the same code: requests
    for different codes never share an address. *)
Theorem make_secid_inj code1 code2 :
  make_secid code1 = make_secid code2 → code1 = code2.
Proof.
  unfold make_secid.
  destruct (market_prefix_cases code1) as [-> | ->],
    (market_prefix_cases code2) as [-> | ->];
    cbn [String.append]; intros H; by simplify_eq.
Qed.

Section pre_close_batch.
Variable http : request → http_reply.

Lemma pre_close_complete_cons code codes acc :
  complete http (code :: codes) acc =
  complete http codes
    match parse_reply code (http (request_for code)) with
    | Some q =>
        {| results := results acc ++ [q];
           failed_codes := failed_codes acc;
           batch_requests := batch_requests acc ++ [request_for code] |}
    | None =>
        {| results := results acc;
           failed_codes := failed_codes acc ++ [code];
           batch_requests := batch_requests acc ++ [request_for code] |}
    end.
Proof. done. Qed.

Lemma pre_close_complete_codes codes acc :
  (stock_code <$> results (complete http codes acc)) ++
    failed_codes (complete http codes acc) ≡ₚ
  ((stock_code <$> results acc) ++ failed_codes acc) ++ codes.
Proof.
  revert acc. induction codes as [|code codes IH]; intros acc.
  { by rewrite app_nil_r. }
  rewrite pre_close_complete_cons, IH.
  destruct (parse_reply code (http (request_for code))) as [q|] eqn:Hq; cbn.
  - apply parse_reply_some in Hq as (_ & _ & _ & _ & _ & _ & _ & <-).
    rewrite fmap_app. cbn [fmap list_fmap]. rewrite <- !app_assoc.
    apply Permutation_app_head. cbn [app]. apply Permutation_middle.
  - rewrite <- !app_assoc. done.
Qed.

Lemma pre_close_complete_requests codes acc :
  batch_requests (complete http codes acc) =
  batch_requests acc ++ (request_for <$> codes).
Proof.
  revert acc. induction codes as [|code codes IH]; intros acc.
  { by rewrite app_nil_r. }
  rewrite pre_close_complete_cons, IH.
  destruct (parse_reply _ _); cbn; by rewrite <- app_assoc.
Qed.

Lemma pre_close_complete_valid codes acc :
  Forall valid_quote (results acc) →
  Forall valid_quote (results (complete http codes acc)).
Proof.
  revert acc. induction codes as [|code codes IH]; intros acc Hacc; [done|].
  rewrite pre_close_complete_cons. apply IH.
  destruct (parse_reply code (http (request_for code))) as [q|] eqn:Hq;
    [|done].
  cbn. apply Forall_app. split; [done|]. apply Forall_singleton.
  by apply parse_reply_some in Hq as (_ & _ & _ & _ & _ & _ & ? & _).
Qed.

(** The failed codes are some of the codes, in completion order. *)
Lemma pre_close_complete_failed codes acc :
  ∃ l,
    failed_codes (complete http codes acc) = failed_codes acc ++ l ∧
    l `sublist_of` codes.
Proof.
  revert acc. induction codes as [|code codes IH]; intros acc.
  { exists []. by rewrite app_nil_r. }
  rewrite pre_close_complete_cons.
  destruct (parse_reply code (http (request_for code))).
  - destruct (IH {| results := results acc ++ [q];
                    failed_codes := failed_codes acc;
                    batch_requests := batch_requests acc ++
                      [request_for code] |}) as (l & -> & Hl).
    exists l. split; [done|]. by apply sublist_cons.
  - destruct (IH {| results := results acc;
                    failed_codes := failed_codes acc ++ [code];
                    batch_requests := batch_requests acc ++
                      [request_for code] |}) as (l & -> & Hl).
    exists (code :: l). cbn. rewrite <- app_assoc.
    split; [done|]. by apply sublist_skip.
Qed.

End pre_close_batch.


(** ** The run of [download_pre_close_parallel] *)

Section pre_close_run.
Variable w : world.
Variable max_workers : Z.
Hypothesis completion_order : ∀ r l, as_completed w r l ≡ₚ l.

Lemma batch_internal_codes r codes workers :
  let b :=
    _download_batch_internal (http w r) (as_completed w r) codes workers in
  (stock_code <$> results b) ++ failed_codes b ≡ₚ codes ∧
  Forall valid_quote (results b) ∧
  length (batch_requests b) = length codes.
Proof.
  intros b. unfold b, _download_batch_internal.
  set (acc := {| results := [] |}).
  split; [|split].
  - rewrite (pre_close_complete_codes (http w r) _ acc). cbn.
    apply completion_order.
  - by apply pre_close_complete_valid.
  - rewrite (pre_close_complete_requests (http w r) _ acc). cbn.
    by rewrite length_fmap, completion_order.
Qed.

Lemma pre_close_retry_loop_codes codes n i st :
  (stock_code <$> all_results st) ++ failed st ≡ₚ codes →
  Forall valid_quote (all_results st) →
  let st' := retry_loop w max_workers n i st in
  (stock_code <$> all_results st') ++ failed st' ≡ₚ codes ∧
  Forall valid_quote (all_results st').
Proof.
  revert i st. induction n as [|n IH]; intros i st Hst Hvalid; [done|].
  cbn [retry_loop]. destruct (failed st) as [|c cs] eqn:Hf.
  { cbn. by rewrite Hf. }
  rewrite <- Hf in *.
  destruct (batch_internal_codes (S i) (failed st)
    (retry_workers max_workers)) as (Hb & Hbv & _).
  apply IH; cbn.
  - rewrite fmap_app, <- app_assoc, Hb. done.
  - by apply Forall_app.
Qed.

Lemma pre_close_retry_loop_numbers codes n i st :
  round_number <$> rounds st = seq 0 (S i) →
  length (requests st) = sum_list (length <$> (round_input <$> rounds st)) →
  Forall (λ r, length (round_input r) ≤ length codes) (rounds st) →
  (stock_code <$> all_results st) ++ failed st ≡ₚ codes →
  let st' := retry_loop w max_workers n i st in
  round_number <$> rounds st' = seq 0 (length (rounds st')) ∧
  S i ≤ length (rounds st') ≤ S i + n ∧
  (length (rounds st') < S i + n → failed st' = []) ∧
  length (requests st') =
    sum_list (length <$> (round_input <$> rounds st')) ∧
  Forall (λ r, length (round_input r) ≤ length codes) (rounds st').
Proof.
  revert i st.
  induction n as [|n IH]; intros i st Hnum Hreq Hin Hcodes.
  { cbn. apply (f_equal length) in Hnum as Hlen.
    rewrite length_fmap, length_seq in Hlen. rewrite Hlen.
    split; [done|]. split; [lia|]. split; [lia|done]. }
  cbn [retry_loop]. destruct (failed st) as [|c cs] eqn:Hf.
  { cbn. apply (f_equal length) in Hnum as Hlen.
    rewrite length_fmap, length_seq in Hlen. rewrite Hlen.
    split; [done|]. split; [lia|]. split; [done|done]. }
  rewrite <- Hf in *.
  destruct (batch_internal_codes (S i) (failed st)
    (retry_workers max_workers)) as (Hb & _ & Hbreq).
  match goal with |- context [retry_loop _ _ n (S i) ?st1] =>
    specialize (IH (S i) st1) end.
  destruct IH as (Hnum' & Hlen' & Hstop' & Hreq' & Hin').
  - cbn [rounds]. by rewrite fmap_app, Hnum, (seq_S (S i)).
  - cbn [requests rounds]. rewrite length_app, !fmap_app, sum_list_with_app.
    rewrite Hreq, Hbreq. cbn. lia.
  - cbn [rounds]. apply Forall_app. split; [done|].
    apply Forall_singleton. cbn.
    apply Permutation_length in Hcodes. rewrite length_app in Hcodes. lia.
  - cbn [all_results failed]. rewrite fmap_app, <- app_assoc, Hb. done.
  - split; [done|]. split; [lia|]. split; [|done].
    intros Hlt. apply Hstop'. lia.
Qed.

End pre_close_run.

(** X20: at the end of [download_pre_close_parallel] every code given is
    accounted for once: the codes of the quotes collected over all rounds
    together with the codes still failed are the codes given, each as
    often as it was given, so no code is quoted twice or lost; and every
    quote collected has a truthy [f60] other than ["-"]. *)
Theorem pre_close_run_sorts_every_code w stock_codes max_workers
    max_retries :
  (∀ r l, as_completed w r l ≡ₚ l) →
  let st :=
    download_pre_close_parallel w stock_codes max_workers max_retries in
  (stock_code <$> all_results st) ++ failed st ≡ₚ stock_codes ∧
  Forall valid_quote (all_results st).
Proof.
  intros Hperm st. unfold st, download_pre_close_parallel.
  destruct (batch_internal_codes w Hperm 0 stock_codes max_workers)
    as (Hb & Hbv & _).
  by apply pre_close_retry_loop_codes.
Qed.

(** X21: [download_pre_close_parallel] numbers its rounds 0, 1, 2, ...,
    runs at least round 0 and at most [max_retries] retry rounds, and
    stops before the budget is used up only when no code is left failed.
    It sends one request per code of every round's input and nothing
    else, so never more than the number of codes times the number of
    rounds. *)
Theorem pre_close_rounds_and_requests w stock_codes max_workers
    max_retries :
  (∀ r l, as_completed w r l ≡ₚ l) →
  let st :=
    download_pre_close_parallel w stock_codes max_workers max_retries in
  round_number <$> rounds st = seq 0 (length (rounds st)) ∧
  1 ≤ length (rounds st) ≤ S max_retries ∧
  (length (rounds st) < S max_retries → failed st = []) ∧
  length (requests st) =
    sum_list (length <$> (round_input <$> rounds st)) ∧
  length (requests st) ≤ length stock_codes * length (rounds st).
Proof.
  intros Hperm st. unfold st, download_pre_close_parallel.
  destruct (batch_internal_codes w Hperm 0 stock_codes max_workers)
    as (Hb & _ & Hbreq).
  match goal with |- context [retry_loop _ _ _ 0 ?st0] =>
    destruct (pre_close_retry_loop_numbers w max_workers Hperm stock_codes
      max_retries 0 st0) as (Hnum & Hlen & Hstop & Hreq & Hin)
  end; try done.
  { cbn. lia. }
  { by apply Forall_singleton. }
  split; [done|]. split; [lia|]. split; [intros; apply Hstop; lia|].
  split; [done|]. rewrite Hreq. clear -Hin.
  induction Hin as [|r rs Hr _ IH]; cbn; [lia|]. lia.
Qed.

(** ** The further theorems at concrete inputs *)

Section pre_close_instances.
Import scenarios.

Lemma make_secid_inj_witness :
  make_secid "600000" = "1.600000" ∧ "600000" = "600000".
Proof.
  split; [reflexivity|]. apply (make_secid_inj "600000" "600000").
  reflexivity.
Defined.


Lemma pre_close_run_sorts_every_code_witness :
  let st :=
    download_pre_close_parallel world_late ["600000"; "000001"] 50 3 in
  (stock_code <$> all_results st) ++ failed st ≡ₚ ["600000"; "000001"] ∧
  Forall valid_quote (all_results st).
Proof.
  apply (pre_close_run_sorts_every_code world_late ["600000"; "000001"]
    50 3).
  intros r l. reflexivity.
Defined.

Lemma pre_close_rounds_and_requests_witness :
  let st :=
    download_pre_close_parallel world_late ["600000"; "000001"] 50 3 in
  length (rounds st) = 2 ∧ failed st = [] ∧ length (requests st) = 4.
Proof.
  destruct (pre_close_rounds_and_requests world_late ["600000"; "000001"]
    50 3) as (_ & _ & Hstop & Hreq & _).
  - intros r l. reflexivity.
  - split; [reflexivity|]. split; [apply Hstop; vm_compute; lia|].
    cbv zeta in Hreq. rewrite Hreq. reflexivity.
Defined.

Lemma workers_do_not_grow_witness :
  adjacent (λ x y, (round_workers y ≤ round_workers x)%Z)
    (rounds (download_pre_close_parallel world_late ["600000"; "000001"]
       50 3)).
Proof.
  apply (workers_do_not_grow world_late ["600000"; "000001"] 50 3). lia.
Defined.

End pre_close_instances.

End download_pre_close_facts.
